(** * The persona system call layer of XNU (bsd/kern/sys_persona.c)

    A shallow embedding of the [persona] system call: the record transfer
    helpers [kpersona_copyin] and [kpersona_copyout], the six handlers
    [kpersona_alloc_syscall], [kpersona_dealloc_syscall],
    [kpersona_get_syscall], [kpersona_info_syscall],
    [kpersona_pidinfo_syscall] and [kpersona_find_syscall], and the entry
    point that selects among them.

    The handlers are C functions that thread three pieces of state: the user
    address space they copy from and to, the global persona registry they call
    into, and (for accounting) the order in which they call their
    collaborators.  They are written here in a small state monad over
    [kstate]; [int error] is an [option errno] with [None] for 0, so that the
    C test [if (error)] reads [if failed error then .. else ..]; a
    [struct persona *] is an [option Z] (the id of the entry, [None] for
    NULL).

    The registry itself (kern_persona.c) and the headers are not part of the
    translated file: the registry functions are modelled from the
    specification of the registry, and the constants of the headers are
    parameters. *)

From stdpp Require Import base list gmap.
From Stdlib Require Import ZArith NArith Ascii Lia.

Local Open Scope Z_scope.

(** ** Constants of the headers

    [sys_persona.c] uses constants that are declared in headers
    (<sys/persona.h>, <sys/kauth.h>, <sys/param.h>).  They are taken as
    parameters.  The two inequalities record that the sentinels are not the
    zero id: line 100 of the source tests [persona_id] against both
    [PERSONA_ID_NONE] and [(uid_t)0], and line 116 replaces a zero [gmuid]
    by [KAUTH_UID_NONE]. *)
Class PersonaConsts := {
  PERSONA_INFO_V1 : Z;
  PERSONA_ID_NONE : Z;
  KAUTH_UID_NONE : Z;
  MAXLOGNAME : nat;
  NGROUPS : nat;
  (** supported range of [persona_type] *)
  persona_type_ok : Z -> bool;
  (** the "unset" primary group and the natural default of [gmuid] of a
      freshly allocated persona *)
  PERSONA_GID_UNSET : Z;
  PERSONA_GMUID_DEFAULT : Z;
  PERSONA_ID_NONE_nonzero : PERSONA_ID_NONE <> 0;
  KAUTH_UID_NONE_nonzero : KAUTH_UID_NONE <> 0
}.

(** ** Error codes *)

(** The codes the handlers return themselves ([EPERM], [ESRCH], [EINVAL],
    [ENOMEM], [ENOSYS]), the fault of a boundary copy ([EFAULT]) and the error kinds
    the registry reports. *)
Inductive errno :=
| EPERM | ESRCH | EINVAL | ENOMEM | ENOSYS | EFAULT
| DuplicateId | CapacityExceeded | InvalidArgument | TooManyGroups.

Definition error_t := option errno.

(** [if (error)] *)
Definition failed (error : error_t) : bool :=
  match error with Some _ => true | None => false end.

(** [if (persona)] *)
Definition nonnull {A} (ptr : option A) : bool :=
  match ptr with Some _ => true | None => false end.

(** ** Data *)

(** [struct kpersona_info]: the record exchanged with the caller.
    [persona_groups] is [gid_t\[NGROUPS\]], [persona_name] is
    [char\[MAXLOGNAME+1\]]. *)
Record kpersona_info := mk_kinfo {
  persona_info_version : Z;
  persona_id : Z;
  persona_type : Z;
  persona_gid : Z;
  persona_ngroups : N;
  persona_groups : list Z;
  persona_gmuid : Z;
  persona_name : list ascii
}.

(** Modelled from the spec: an entry of the registry ([struct persona],
    declared in a header that is missing from the sources; the Persona of
    the data model).  The table of the registry maps an id to its entry, so
    [pna_id] is the key of the entry and a reference to an entry is that
    key. *)
Record persona := mk_persona {
  pna_type : Z;
  pna_login : list ascii;
  pna_gid : Z;
  pna_groups : list Z;
  pna_gmuid : Z;
  pna_refcount : nat;
  pna_valid : bool
}.

(** What a region of user memory holds: a whole record, a 32-bit scalar
    ([uid_t], [pid_t]) or a [size_t].  The byte layout of the record is not
    modelled; a region has a kind and a write permission. *)
Inductive uval :=
| UInfo (k : kpersona_info)
| U32 (v : Z)
| USize (n : N).

Record ucell := mk_ucell { uc_val : uval; uc_writable : bool }.

(** Calls made to the collaborators, in the order they are made: the calls
    of the registry functions with their arguments, [EvGet p] for each
    reference the registry hands out on entry [p], [EvPut p] for each
    [persona_put] of a reference to [p], and [EvCopyout addr v ok] for each
    [copyout] of [v] to [addr], with its success. *)
Inductive event :=
| EvAlloc (id : Z) (login : option (list ascii)) (type : Z)
| EvSetGid (p : Z) (gid : Z)
| EvSetGroups (p : Z) (groups : list Z) (ngroups : N) (gmuid : Z)
| EvLookup (id : Z)
| EvInvalidate (id : Z)
| EvProcGet (pid : Z)
| EvCurrentGet
| EvFind (login : option (list ascii)) (id : Z) (limit : N)
| EvGet (p : Z)
| EvPut (p : Z)
| EvCopyout (addr : Z) (v : uval) (ok : bool).

(** The state a handler runs in. *)
Record kstate := mk_kstate {
  (** the registry: its table, its id cursor and [g_max_personas] *)
  table : gmap Z persona;
  next_id_hint : Z;
  g_max_personas : N;
  (** the persona each process has adopted *)
  proc_persona : gmap Z Z;
  (** the caller: [kauth_cred_issuser(kauth_cred_get())] and
      [current_proc()->p_pid] *)
  issuser : bool;
  curpid : Z;
  (** whether [MALLOC] returns a buffer *)
  malloc_ok : bool;
  (** the caller's address space *)
  umem : gmap Z ucell;
  (** the calls made so far *)
  trace : list event
}.

Definition set_table (l : gmap Z persona) (st : kstate) : kstate :=
  mk_kstate l (next_id_hint st) (g_max_personas st) (proc_persona st)
            (issuser st) (curpid st) (malloc_ok st) (umem st) (trace st).

Definition set_next_id (n : Z) (st : kstate) : kstate :=
  mk_kstate (table st) n (g_max_personas st) (proc_persona st)
            (issuser st) (curpid st) (malloc_ok st) (umem st) (trace st).

Definition set_umem (m : gmap Z ucell) (st : kstate) : kstate :=
  mk_kstate (table st) (next_id_hint st) (g_max_personas st)
            (proc_persona st) (issuser st) (curpid st) (malloc_ok st) m
            (trace st).

Definition log (e : event) (st : kstate) : kstate :=
  mk_kstate (table st) (next_id_hint st) (g_max_personas st)
            (proc_persona st) (issuser st) (curpid st) (malloc_ok st)
            (umem st) (trace st ++ [e]).

(** ** The state monad of the handlers *)

Definition M (A : Type) : Type := kstate -> A * kstate.

Definition ret {A} (a : A) : M A := fun st => (a, st).

Definition bind {A B} (c : M A) (k : A -> M B) : M B :=
  fun st => let (a, st') := c st in k a st'.

Notation "'do' p <- c ; k" := (bind c (fun p => k))
  (at level 10, p pattern, c at level 100, k at level 200, only parsing).
Notation "'run' c ; k" := (bind c (fun _ => k))
  (at level 10, c at level 100, k at level 200, only parsing).

Definition gets {A} (f : kstate -> A) : M A := fun st => (f st, st).
Definition modify (f : kstate -> kstate) : M unit := fun st => (tt, f st).

(** Replaces the table of the registry by [f] of it. *)
Definition update_table (f : gmap Z persona -> gmap Z persona) : M unit :=
  modify (fun st => set_table (f (table st)) st).

(** ** Boundary copies

    [copyin] and [copyout] are the kernel's; a copy faults ([EFAULT]) when
    the region is not mapped, is of another kind or, for [copyout], is not
    writable.  On a fault the destination keeps what it held. *)

(** The 32-bit scalar at [addr]; the leading word of a record is its
    [persona_info_version]. *)
Definition u32_at (m : gmap Z ucell) (addr : Z) : option Z :=
  match m !! addr with
  | Some (mk_ucell (U32 v) _) => Some v
  | Some (mk_ucell (UInfo k) _) => Some (persona_info_version k)
  | _ => None
  end.

(** [copyin(addr, &v, sizeof(uint32_t))] *)
Definition copyin_u32 (addr : Z) (dst : Z) : M (error_t * Z) :=
  do m <- gets umem ;
  match u32_at m addr with
  | Some v => ret (None, v)
  | None => ret (Some EFAULT, dst)
  end.

(** [copyin(addr, &n, sizeof(size_t))] *)
Definition copyin_size (addr : Z) (dst : N) : M (error_t * N) :=
  do m <- gets umem ;
  match m !! addr with
  | Some (mk_ucell (USize n) _) => ret (None, n)
  | _ => ret (Some EFAULT, dst)
  end.

(** [copyin(addr, kinfo, sizeof( *kinfo))] *)
Definition copyin_info (addr : Z) (dst : kpersona_info)
  : M (error_t * kpersona_info) :=
  do m <- gets umem ;
  match m !! addr with
  | Some (mk_ucell (UInfo k) _) => ret (None, k)
  | _ => ret (Some EFAULT, dst)
  end.

Definition same_kind (a b : uval) : bool :=
  match a, b with
  | UInfo _, UInfo _ | U32 _, U32 _ | USize _, USize _ => true
  | _, _ => false
  end.

(** Whether [v] can be stored at [addr]. *)
Definition can_write (m : gmap Z ucell) (addr : Z) (v : uval) : bool :=
  match m !! addr with
  | Some c => uc_writable c && same_kind (uc_val c) v
  | None => false
  end.

(** [copyout(&v, addr, sizeof(v))] *)
Definition copyout (v : uval) (addr : Z) : M error_t :=
  do m <- gets umem ;
  if can_write m addr v then
    run modify (log (EvCopyout addr v true)) ;
    run modify (set_umem (<[addr := mk_ucell v true]> m)) ;
    ret None
  else
    run modify (log (EvCopyout addr v false)) ;
    ret (Some EFAULT).



(** ** Strings in fixed arrays *)

Definition nul : ascii := Ascii.zero.

(** The C string that starts a character array: the characters before the
    first NUL. *)
Fixpoint cstring (s : list ascii) : list ascii :=
  match s with
  | [] => []
  | c :: s' => if Ascii.eqb c nul then [] else c :: cstring s'
  end.

(** [s\[0\]] as a truth value. *)
Definition first_char_set (s : list ascii) : bool :=
  match s with
  | [] => false
  | c :: _ => negb (Ascii.eqb c nul)
  end.

Fixpoint string_eqb (a b : list ascii) : bool :=
  match a, b with
  | [], [] => true
  | x :: a', y :: b' => Ascii.eqb x y && string_eqb a' b'
  | _, _ => false
  end.

(** ** Entries of the table *)

Definition with_refcount (n : nat) (p : persona) : persona :=
  mk_persona (pna_type p) (pna_login p) (pna_gid p)
             (pna_groups p) (pna_gmuid p) n (pna_valid p).

Definition with_valid (b : bool) (p : persona) : persona :=
  mk_persona (pna_type p) (pna_login p) (pna_gid p)
             (pna_groups p) (pna_gmuid p) (pna_refcount p) b.

Definition with_gid (g : Z) (p : persona) : persona :=
  mk_persona (pna_type p) (pna_login p) g
             (pna_groups p) (pna_gmuid p) (pna_refcount p) (pna_valid p).

Definition with_groups (gs : list Z) (gmuid : Z) (p : persona) : persona :=
  mk_persona (pna_type p) (pna_login p) (pna_gid p)
             gs gmuid (pna_refcount p) (pna_valid p).

(** Modelled from the spec: the increment of the reference count when a
    reference is acquired. *)
Definition persona_get_ref (p : persona) : persona :=
  with_refcount (S (pna_refcount p)) p.

(** Modelled from the spec: the generation of "the next unused id" of
    Registry.allocate.  The first id from [cand] on that is not a key of
    [tbl]; [fuel] bounds the search, and [size tbl] steps always suffice. *)
Fixpoint next_unused (fuel : nat) (cand : Z) (tbl : gmap Z persona) : Z :=
  match fuel with
  | O => cand
  | S fuel' =>
      match tbl !! cand with
      | Some _ => next_unused fuel' (cand + 1) tbl
      | None => cand
      end
  end.

(** Modelled from the spec: a persona is reachable by lookup iff it is
    present in the table and valid (invariant 1 of the data model). *)
Definition persona_active (id : Z) (tbl : gmap Z persona) : bool :=
  match tbl !! id with
  | Some e => pna_valid e
  | None => false
  end.

Section Registry.
Context `{PersonaConsts}.

(** ** The registry (kern_persona.c)

    The registry functions are called by the handlers but defined in another
    file.  They are modelled from the specification of the registry; each of
    them appends the call to the trace. *)

(** Modelled from the spec: the id a new entry gets in Registry.allocate,
    the next unused id for the none sentinel and the requested id
    otherwise. *)
Definition alloc_new_id (id : Z) (hint : Z) (tbl : gmap Z persona) : Z :=
  if id =? PERSONA_ID_NONE then next_unused (size tbl) hint tbl else id.

(** Modelled from the spec: [persona_alloc], missing from the sources
    (Registry.allocate).  The none sentinel asks for the next unused id,
    any other id is used if it is not present.  Fails with DuplicateId if
    the id is taken, CapacityExceeded if the table is full, InvalidArgument
    for a present but empty login or a type out of range.  The new entry has
    one reference and is valid. *)
Definition persona_alloc (id : Z) (login : option (list ascii)) (type : Z)
  : M (option Z * error_t) :=
  run modify (log (EvAlloc id login type)) ;
  do tbl <- gets table ;
  do hint <- gets next_id_hint ;
  do max <- gets g_max_personas ;
  let new_id := alloc_new_id id hint tbl in
  if nonnull (tbl !! new_id) then
    ret (None, Some DuplicateId)
  else if (N.of_nat (size tbl) =? max)%N then
    ret (None, Some CapacityExceeded)
  else if match login with Some [] => true | _ => false end
          || negb (persona_type_ok type) then
    ret (None, Some InvalidArgument)
  else
    let p := mk_persona type (default [] login) PERSONA_GID_UNSET
                        [] PERSONA_GMUID_DEFAULT 1 true in
    run update_table (insert new_id p) ;
    run (if id =? PERSONA_ID_NONE then modify (set_next_id (new_id + 1))
         else ret tt) ;
    ret (Some new_id, None).

(** Modelled from the spec: [persona_lookup], missing from the sources
    (Registry.lookup).  NotFound unless an entry with that id exists and is
    valid; otherwise the reference count is incremented and the reference
    returned. *)
Definition persona_lookup (id : Z) : M (option Z) :=
  run modify (log (EvLookup id)) ;
  do tbl <- gets table ;
  if persona_active id tbl then
    run modify (log (EvGet id)) ;
    run update_table (alter persona_get_ref id) ;
    ret (Some id)
  else ret None.

(** Modelled from the spec: [persona_lookup_and_invalidate], missing from
    the sources (Registry.invalidate).  Fails if the entry is absent or
    already invalid; otherwise it clears [valid] and returns an acquired
    reference. *)
Definition persona_lookup_and_invalidate (id : Z) : M (option Z) :=
  run modify (log (EvInvalidate id)) ;
  do tbl <- gets table ;
  if persona_active id tbl then
    run modify (log (EvGet id)) ;
    run update_table
      (alter (fun q => persona_get_ref (with_valid false q)) id) ;
    ret (Some id)
  else ret None.

(** Modelled from the spec: the effect of Registry.release on the table.
    Decrements the reference count; if it reaches zero and the entry is not
    valid, the entry is removed from the table. *)
Definition put_entry (id : Z) (tbl : gmap Z persona) : gmap Z persona :=
  match tbl !! id with
  | Some p =>
      let n := Nat.pred (pna_refcount p) in
      if Nat.eqb n 0 && negb (pna_valid p) then delete id tbl
      else alter (with_refcount n) id tbl
  | None => tbl
  end.

(** Modelled from the spec: [persona_put], missing from the sources
    (Registry.release).  Releasing NULL does nothing: the find handler
    releases every slot of a zero-filled array. *)
Definition persona_put (persona : option Z) : M unit :=
  match persona with
  | None => ret tt
  | Some id =>
      run modify (log (EvPut id)) ;
      update_table (put_entry id)
  end.

(** Modelled from the spec: [persona_set_gid], missing from the sources
    (Set-Primary-Group).  Stores the group; no range is enforced. *)
Definition persona_set_gid (persona : Z) (gid : Z) : M error_t :=
  run modify (log (EvSetGid persona gid)) ;
  run update_table (alter (with_gid gid) persona) ;
  ret None.

(** Modelled from the spec: [persona_set_groups], missing from the sources
    (Set-Groups).  Fails with TooManyGroups if the count exceeds the
    capacity and leaves the entry unchanged; a zero resolution identity is
    stored as the disabled sentinel; copies [groups\[0..ngroups)]. *)
Definition persona_set_groups (persona : Z) (groups : list Z) (ngroups : N)
  (gmuid : Z) : M error_t :=
  run modify (log (EvSetGroups persona groups ngroups gmuid)) ;
  if (N.of_nat NGROUPS <? ngroups)%N then ret (Some TooManyGroups)
  else
    let gmuid' := if gmuid =? 0 then KAUTH_UID_NONE else gmuid in
    run update_table
      (alter (with_groups (take (N.to_nat ngroups) groups) gmuid') persona) ;
    ret None.

(** Modelled from the spec: the persona process [pid] has adopted, with one
    more reference (the common part of Acquire-Current-Persona and
    Acquire-Persona-By-Owner). *)
Definition proc_get (pid : Z) : M (option Z) :=
  do procs <- gets proc_persona ;
  do tbl <- gets table ;
  match procs !! pid with
  | Some id =>
      if nonnull (tbl !! id) then
        run modify (log (EvGet id)) ;
        run update_table (alter persona_get_ref id) ;
        ret (Some id)
      else ret None
  | None => ret None
  end.

(** Modelled from the spec: [persona_proc_get], missing from the sources
    (Acquire-Persona-By-Owner, without the authorization, which the handler
    does).  Returns the persona the process has adopted, with an acquired
    reference, or NULL if it has adopted none. *)
Definition persona_proc_get (pid : Z) : M (option Z) :=
  run modify (log (EvProcGet pid)) ;
  proc_get pid.

(** Modelled from the spec: [current_persona_get], missing from the sources
    (Acquire-Current-Persona).  Returns the persona the calling process has
    adopted, with an acquired reference, or NULL if it has adopted none. *)
Definition current_persona_get : M (option Z) :=
  run modify (log EvCurrentGet) ;
  do cur <- gets curpid ;
  proc_get cur.

(** Modelled from the spec: the matching of Registry.find.  A candidate
    matches if it is valid, the login filter is absent or equals its login,
    and the id filter is the none sentinel or equals its id. *)
Definition persona_matches (login : option (list ascii)) (id : Z)
  (kv : Z * persona) : bool :=
  pna_valid (snd kv)
  && match login with
     | None => true
     | Some l => string_eqb l (pna_login (snd kv))
     end
  && ((id =? PERSONA_ID_NONE) || (id =? fst kv)).

(** Modelled from the spec: the scan of Registry.find.  The ids of the
    matching entries, in the order in which the table enumerates its
    entries (a fixed order for a given table). *)
Definition find_matches (login : option (list ascii)) (id : Z)
  (tbl : gmap Z persona) : list Z :=
  fst <$> List.filter (persona_matches login id) (map_to_list tbl).

(** Modelled from the spec: Registry.find takes a reference on each entry
    it returns; here on each entry of [ids], in order. *)
Fixpoint get_refs (ids : list Z) : M unit :=
  match ids with
  | [] => ret tt
  | id :: rest =>
      run modify (log (EvGet id)) ;
      run update_table (alter persona_get_ref id) ;
      get_refs rest
  end.

(** Modelled from the spec: [persona_find], missing from the sources
    (Registry.find).  Scans the valid entries, collects an acquired
    reference for each of the first [limit] matches and reports the total
    number of matches.  No reference is taken for a match that is not
    returned. *)
Definition persona_find (login : option (list ascii)) (id : Z) (limit : N)
  : M (error_t * list Z * N) :=
  run modify (log (EvFind login id limit)) ;
  do tbl <- gets table ;
  let matches := find_matches login id tbl in
  let found := take (N.to_nat limit) matches in
  run get_refs found ;
  ret (None, found, N.of_nat (length matches)).

(** Modelled from the spec: [persona_get_gid], [persona_get_groups] and
    [persona_get_gmuid], missing from the sources (Get-Groups and the
    snapshot of Query-Info).  The groups are a copy of at most [cap] groups
    with their count. *)
Definition persona_get_gid (p : persona) : Z := pna_gid p.
Definition persona_get_gmuid (p : persona) : Z := pna_gmuid p.
Definition persona_get_groups (p : persona) (cap : nat) : N * list Z :=
  let gs := take cap (pna_groups p) in (N.of_nat (length gs), gs).

End Registry.

(** ** The handlers (sys_persona.c) *)

Definition set_persona_name (name : list ascii) (k : kpersona_info)
  : kpersona_info :=
  mk_kinfo (persona_info_version k) (persona_id k) (persona_type k)
           (persona_gid k) (persona_ngroups k) (persona_groups k)
           (persona_gmuid k) name.

Definition set_persona_gmuid (gmuid : Z) (k : kpersona_info)
  : kpersona_info :=
  mk_kinfo (persona_info_version k) (persona_id k) (persona_type k)
           (persona_gid k) (persona_ngroups k) (persona_groups k)
           gmuid (persona_name k).

(** The operation codes [PERSONA_OP_*] of <sys/persona.h>, decoded. *)
Inductive persona_op :=
| PERSONA_OP_ALLOC | PERSONA_OP_DEALLOC | PERSONA_OP_GET
| PERSONA_OP_INFO | PERSONA_OP_PIDINFO | PERSONA_OP_FIND
| PERSONA_OP_OTHER (code : Z).

(** [struct persona_args]; the fields [operation], [info], [id] and
    [idlen]. *)
Record persona_args := mk_pargs {
  pargs_operation : persona_op;
  pargs_info : Z;
  pargs_id : Z;
  pargs_idlen : Z
}.

(** The contents of an uninitialised [struct kpersona_info] local.  The
    handlers read it only after [kpersona_copyin] has filled it. *)
Definition kinfo_uninit : kpersona_info :=
  mk_kinfo 0 0 0 0 0%N [] 0 [].

Section Syscalls.
Context `{PersonaConsts}.

(** [kpersona_copyin], lines 40-59. *)
Definition kpersona_copyin (infop : Z) (kinfo : kpersona_info)
  : M (error_t * kpersona_info) :=
  let info_v := 0 in
  do (error, info_v) <- copyin_u32 infop info_v ;
  if failed error then ret (error, kinfo)
  else
    (* only support a single version of the struct for now *)
    if negb (info_v =? PERSONA_INFO_V1) then ret (Some EINVAL, kinfo)
    else
      do (error, kinfo) <- copyin_info infop kinfo ;
      (* enforce NULL termination on strings *)
      let kinfo :=
        set_persona_name (<[MAXLOGNAME := nul]> (persona_name kinfo)) kinfo in
      ret (error, kinfo).

(** [kpersona_copyout], lines 61-77. *)
Definition kpersona_copyout (kinfo : kpersona_info) (infop : Z)
  : M error_t :=
  do (error, info_v) <- copyin_u32 infop 0 ;
  if failed error then ret error
  else
    if negb (info_v =? PERSONA_INFO_V1) then ret (Some EINVAL)
    else copyout (UInfo kinfo) infop.

(** [login = kinfo.persona_name\[0\] ? kinfo.persona_name : NULL] *)
Definition login_of (kinfo : kpersona_info) : option (list ascii) :=
  if first_char_set (persona_name kinfo)
  then Some (cstring (persona_name kinfo))
  else None.

(** The id the allocation handler asks the registry for (lines 85 and
    100-101). *)
Definition alloc_requested_id (kinfo : kpersona_info) : Z :=
  let id := PERSONA_ID_NONE in
  if negb (persona_id kinfo =? PERSONA_ID_NONE)
     && negb (persona_id kinfo =? 0)
  then persona_id kinfo
  else id.

(** The identity the allocation handler hands to Set-Groups (lines
    116-117 and 121). *)
Definition gmuid_passed (k : kpersona_info) : Z :=
  if persona_gmuid k =? 0 then KAUTH_UID_NONE else persona_gmuid k.

(** The label [out_error] of [kpersona_alloc_syscall], lines 138-142. *)
Definition alloc_out_error (persona : option Z) (error : error_t)
  : M error_t :=
  run (if nonnull persona then persona_put persona else ret tt) ;
  ret error.

(** [kpersona_alloc_syscall], lines 80-143. *)
Definition kpersona_alloc_syscall (infop idp : Z) : M error_t :=
  do su <- gets issuser ;
  if negb su then ret (Some EPERM)
  else
    do (error, kinfo) <- kpersona_copyin infop kinfo_uninit ;
    if failed error then ret error
    else
      let login := login_of kinfo in
      let id := alloc_requested_id kinfo in
      do (persona, error) <- persona_alloc id login (persona_type kinfo) ;
      match persona with
      | None => ret error
      | Some p =>
          do error <- (if negb (persona_gid kinfo =? 0)
                       then persona_set_gid p (persona_gid kinfo)
                       else ret error) ;
          if failed error then alloc_out_error persona error
          else
            do (error, kinfo) <-
              (if (0 <? persona_ngroups kinfo)%N then
                 (* force gmuid 0 to *opt-out* of memberd *)
                 let kinfo :=
                   if persona_gmuid kinfo =? 0
                   then set_persona_gmuid KAUTH_UID_NONE kinfo
                   else kinfo in
                 do error <- persona_set_groups p (persona_groups kinfo)
                               (persona_ngroups kinfo) (persona_gmuid kinfo) ;
                 ret (error, kinfo)
               else ret (error, kinfo)) ;
            if failed error then alloc_out_error persona error
            else
              (* &persona->pna_id *)
              do error <- copyout (U32 p) idp ;
              if failed error then alloc_out_error persona error
              else kpersona_copyout kinfo infop
      end.

(** [kpersona_dealloc_syscall], lines 145-171. *)
Definition kpersona_dealloc_syscall (idp : Z) : M error_t :=
  do su <- gets issuser ;
  if negb su then ret (Some EPERM)
  else
    do (error, persona_id) <- copyin_u32 idp 0 ;
    if failed error then ret error
    else
      (* invalidate the persona (deny subsequent spawn/fork) *)
      do persona <- persona_lookup_and_invalidate persona_id ;
      if nonnull persona then
        (* one reference from the _lookup() *)
        run persona_put persona ;
        (* one reference from the _alloc() *)
        run persona_put persona ;
        ret error
      else ret (Some ESRCH).

(** [kpersona_get_syscall], lines 173-185. *)
Definition kpersona_get_syscall (idp : Z) : M error_t :=
  do persona <- current_persona_get ;
  match persona with
  | None => ret (Some ESRCH)
  | Some p =>
      do error <- copyout (U32 p) idp ;
      run persona_put persona ;
      ret error
  end.

(** [*persona] for a reference the handler holds.  A reference is to an
    entry of the table; the last case stands for a dangling one. *)
Definition deref (p : Z) : M persona :=
  do tbl <- gets table ;
  match tbl !! p with
  | Some e => ret e
  | None => ret (mk_persona 0 [] 0 [] 0 0 false)
  end.

(** The snapshot that [kpersona_info_syscall] (lines 211-225) and
    [kpersona_pidinfo_syscall] (lines 253-263) build from the entry [e] of
    id [p]: the record is zeroed, then filled field by field; [strncpy]
    copies at most [MAXLOGNAME] characters of the login into the zeroed
    name. *)
Definition kinfo_snapshot (p : Z) (e : persona) : kpersona_info :=
  let '(ngroups, gs) := persona_get_groups e NGROUPS in
  let login := take MAXLOGNAME (cstring (pna_login e)) in
  mk_kinfo PERSONA_INFO_V1 p (pna_type e) (persona_get_gid e)
           ngroups (gs ++ repeat 0 (NGROUPS - length gs))
           (persona_get_gmuid e)
           (login ++ repeat nul (MAXLOGNAME + 1 - length login)).

(** [kpersona_info_syscall], lines 187-232. *)
Definition kpersona_info_syscall (idp infop : Z) : M error_t :=
  do (error, persona_id) <- copyin_u32 idp 0 ;
  if failed error then ret error
  else
    do persona <- persona_lookup persona_id ;
    match persona with
    | None => ret (Some ESRCH)
    | Some p =>
        do e <- deref p ;
        let kinfo := kinfo_snapshot p e in
        run persona_put persona ;
        kpersona_copyout kinfo infop
    end.

(** [kpersona_pidinfo_syscall], lines 234-270. *)
Definition kpersona_pidinfo_syscall (idp infop : Z) : M error_t :=
  do (error, pid) <- copyin_u32 idp 0 ;
  if failed error then ret error
  else
    do su <- gets issuser ;
    do cur <- gets curpid ;
    if negb su && negb (pid =? cur) then ret (Some EPERM)
    else
      do persona <- persona_proc_get pid ;
      match persona with
      | None => ret (Some ESRCH)
      | Some p =>
          do e <- deref p ;
          let kinfo := kinfo_snapshot p e in
          run persona_put persona ;
          kpersona_copyout kinfo infop
      end.

(** [MALLOC(persona, .., sizeof( *persona) * n, M_TEMP, M_WAITOK|M_ZERO)]:
    a zero-filled array of [n] references, or NULL. *)
Definition MALLOC (n : N) : M (option (list (option Z))) :=
  do ok <- gets malloc_ok ;
  if ok then ret (Some (replicate (N.to_nat n) None)) else ret None.

(** The loop of lines 308-316; [i] is the loop variable and [n] the number
    of iterations the loop condition [i < k_idlen] still allows.
    [persona\[i\]] is never NULL here: the registry fills the first
    [min k_idlen u_idlen] slots; the model answers [EFAULT] for a NULL
    slot. *)
Fixpoint copyout_ids (persona : list (option Z)) (idp : Z) (u_idlen : N)
  (i n : nat) (error : error_t) : M error_t :=
  match n with
  | O => ret error
  | S n' =>
      if (u_idlen <=? N.of_nat i)%N then ret error
      else
        match persona !! i with
        | Some (Some p) =>
            do error <- copyout (U32 p) (idp + Z.of_nat i * 4) ;
            if failed error then ret error
            else copyout_ids persona idp u_idlen (S i) n' error
        | _ => ret (Some EFAULT)
        end
  end.

(** The loop of lines 320-321: [persona_put(persona\[i\])] for [n] slots
    from [i] on. *)
Fixpoint put_all (persona : list (option Z)) (i n : nat) : M unit :=
  match n with
  | O => ret tt
  | S n' =>
      run persona_put (default None (persona !! i)) ;
      put_all persona (S i) n'
  end.

(** The label [out] of [kpersona_find_syscall], lines 318-327. *)
Definition find_out (persona : option (list (option Z))) (u_idlen k_idlen : N)
  (idlenp : Z) (error : error_t) : M error_t :=
  run (match persona with
       | Some arr => put_all arr 0 (N.to_nat u_idlen)
       | None => ret tt
       end) ;
  do _ <- copyout (USize k_idlen) idlenp ;
  ret error.

(** [persona_find(login, id, persona, &k_idlen)] as the handler calls it:
    the references found are stored from the start of [persona] (when it is
    not NULL), and [k_idlen] becomes the number of matches. *)
Definition call_persona_find (login : option (list ascii)) (id : Z)
  (persona : option (list (option Z))) (k_idlen : N)
  : M (error_t * option (list (option Z)) * N) :=
  match persona with
  | Some arr =>
      do (error, found, total) <- persona_find login id k_idlen ;
      ret (error,
           Some ((Some <$> found) ++ drop (length found) arr),
           total)
  | None =>
      do (error, _, total) <- persona_find login id 0 ;
      ret (error, None, total)
  end.

(** [kpersona_find_syscall], lines 272-328. *)
Definition kpersona_find_syscall (infop idp idlenp : Z) : M error_t :=
  let k_idlen := 0%N in
  let persona := None in
  do (error, u_idlen) <- copyin_size idlenp 0%N ;
  if failed error then ret error
  else
    do max <- gets g_max_personas ;
    let u_idlen := if (max <? u_idlen)%N then max else u_idlen in
    do (error, kinfo) <- kpersona_copyin infop kinfo_uninit ;
    if failed error then find_out persona u_idlen k_idlen idlenp error
    else
      let login := login_of kinfo in
      do persona <- (if (0 <? u_idlen)%N then MALLOC u_idlen
                     else ret persona) ;
      if (0 <? u_idlen)%N && negb (nonnull persona) then
        find_out persona u_idlen k_idlen idlenp (Some ENOMEM)
      else
        let k_idlen := u_idlen in
        do (error, persona, k_idlen) <-
          call_persona_find login (persona_id kinfo) persona k_idlen ;
        if failed error then find_out persona u_idlen k_idlen idlenp error
        else
          (* copyout all the IDs of each persona we found *)
          do error <- copyout_ids (default [] persona) idp u_idlen 0
                        (N.to_nat k_idlen) error ;
          find_out persona u_idlen k_idlen idlenp error.

(** [persona], lines 334-367: the entry point of the system call (the name
    [persona] is taken by the registry entry). *)
Definition sys_persona (pargs : persona_args) : M error_t :=
  let op := pargs_operation pargs in
  let infop := pargs_info pargs in
  let idp := pargs_id pargs in
  match op with
  | PERSONA_OP_ALLOC => kpersona_alloc_syscall infop idp
  | PERSONA_OP_DEALLOC => kpersona_dealloc_syscall idp
  | PERSONA_OP_GET => kpersona_get_syscall idp
  | PERSONA_OP_INFO => kpersona_info_syscall idp infop
  | PERSONA_OP_PIDINFO => kpersona_pidinfo_syscall idp infop
  | PERSONA_OP_FIND => kpersona_find_syscall infop idp (pargs_idlen pargs)
  | PERSONA_OP_OTHER _ => ret (Some ENOSYS)
  end.

End Syscalls.

(** ** Reading the trace *)

(** The events a call added: those of [st'] after the ones of [st]. *)
Definition new_events (st st' : kstate) : list event :=
  drop (length (trace st)) (trace st').

(** The references taken and released, in order. *)
Definition acquired (tr : list event) : list Z :=
  omap (fun e => match e with EvGet p => Some p | _ => None end) tr.

Definition released (tr : list event) : list Z :=
  omap (fun e => match e with EvPut p => Some p | _ => None end) tr.

(** The ids handed to [copyout], with the outcome. *)
Definition id_copyouts (tr : list event) : list (Z * Z * bool) :=
  omap (fun e => match e with
                 | EvCopyout a (U32 v) ok => Some (a, v, ok)
                 | _ => None
                 end) tr.

(** The records handed to [copyout], and the allocations asked of the
    registry. *)
Definition info_copyouts (tr : list event) : list (Z * kpersona_info * bool) :=
  omap (fun e => match e with
                 | EvCopyout a (UInfo k) ok => Some (a, k, ok)
                 | _ => None
                 end) tr.

Definition allocs (tr : list event) : list Z :=
  omap (fun e => match e with EvAlloc id _ _ => Some id | _ => None end) tr.

(** The searches the registry was asked for. *)
Definition searches (tr : list event)
  : list (option (list ascii) * Z * N) :=
  omap (fun e => match e with
                 | EvFind login id limit => Some (login, id, limit)
                 | _ => None
                 end) tr.


(** What is left of an entry once it has been invalidated and its
    reference released twice: nothing when the reference of its allocation
    was the only one left, and otherwise the invalid entry with one
    reference less. *)
Definition after_dealloc (e : persona) : option persona :=
  if (pna_refcount e <=? 1)%nat then None
  else Some (with_refcount (pna_refcount e - 1) (with_valid false e)).

(** The references held in the slots [i .. i+n) of an array. *)
Definition held (arr : list (option Z)) (i n : nat) : list Z :=
  omap (fun j => default None (arr !! j)) (seq i n).

(** The events of copying the ids [ps] out to the slots of [idp] from slot
    [i] on. *)
Definition id_events (idp : Z) (i : nat) (ps : list Z) : list event :=
  imap (fun l p => EvCopyout (idp + Z.of_nat (i + l) * 4) (U32 p) true) ps.

(** The event of the copy-out that failed, if the ids [left] were still to
    be copied after [copied]. *)
Definition fail_events (idp : Z) (copied left : list Z) : list event :=
  match left with
  | [] => []
  | p :: _ =>
      [EvCopyout (idp + Z.of_nat (length copied) * 4) (U32 p) false]
  end.

(** The copy-outs of ids that [fail_events] stands for. *)
Definition fail_copyouts (idp : Z) (copied left : list Z)
  : list (Z * Z * bool) :=
  match left with
  | [] => []
  | p :: _ => [(idp + Z.of_nat (length copied) * 4, p, false)]
  end.



(** ** The constants of XNU and some concrete machines *)

(** The values of the XNU headers: [PERSONA_INFO_V1] is 1,
    [PERSONA_ID_NONE] is [(uid_t)-1], [KAUTH_UID_NONE] is
    [~(uid_t)0 - 100], [MAXLOGNAME] is 255, [NGROUPS] is 16, and the
    persona types run from 1 to 4. *)
#[global, refine] Instance xnu_consts : PersonaConsts := {|
  PERSONA_INFO_V1 := 1;
  PERSONA_ID_NONE := 4294967295;
  KAUTH_UID_NONE := 4294967195;
  MAXLOGNAME := 255;
  NGROUPS := 16;
  persona_type_ok := fun t => (0 <? t) && (t <=? 4);
  PERSONA_GID_UNSET := 4294967195;
  PERSONA_GMUID_DEFAULT := 0
|}.
Proof. all: discriminate. Defined.

(** A character array of [n] bytes holding the characters [s]. *)
Definition char_array (n : nat) (s : list ascii) : list ascii :=
  take n s ++ repeat nul (n - length s).

Definition svc : list ascii := ["s"; "v"; "c"]%char.
Definition alice : list ascii := ["a"; "l"; "i"; "c"; "e"]%char.

(** A version 1 record of type 2 (managed) named [name]. *)
Definition info_v1 (id : Z) (gid : Z) (ngroups : N) (gmuid : Z)
  (name : list ascii) : kpersona_info :=
  mk_kinfo 1 id 2 gid ngroups (repeat 7 16) gmuid (char_array 256 name).

(** A machine with an empty registry of capacity 4 whose ids start at 1000,
    a caller with pid 1 and the given address space. *)
Definition boot (su : bool) (mem : list (Z * ucell)) : kstate :=
  mk_kstate ∅ 1000 4 ∅ su 1 true (list_to_map mem) [].

(** A record of version 2. *)
Definition info_v2 : kpersona_info :=
  mk_kinfo 2 4294967295 2 0 0 (repeat 0 16) 0 (char_array 256 svc).

(** A name of 300 characters. *)
Definition long_name : list ascii := replicate 300 "a"%char.

(** A writable region holding [v], and a read-only one. *)
Definition cell (v : uval) : ucell := mk_ucell v true.
Definition ro_cell (v : uval) : ucell := mk_ucell v false.

(** A valid entry with one reference, the one of its allocation. *)
Definition entry (login : list ascii) : persona :=
  mk_persona 2 login 20 [] 0 1 true.

(** Two personas named alice and one named svc. *)
Definition three_personas : gmap Z persona :=
  list_to_map [(1000, entry alice); (1001, entry alice); (1002, entry svc)].

(** A caller allocates from the record [k] at 100 and asks for the id at
    200. *)
Definition alloc_machine (su : bool) (k : kpersona_info) : kstate :=
  boot su [(100, cell (UInfo k)); (200, cell (U32 0))].

(** A privileged caller allocates from the record at 100, read-only, and
    asks for the id at 200. *)
Definition ro_record_machine : kstate :=
  boot true [(100, ro_cell (UInfo (info_v1 4294967295 0 0 0 svc)));
             (200, cell (U32 0))].

(** A machine with the three personas, a caller with pid 1 that is
    privileged iff [su] and has adopted persona 1000, a record at 100 and
    the id [id] at 200. *)
Definition id_machine (su : bool) (id : Z) : kstate :=
  mk_kstate three_personas 1003 4 {[ 1 := 1000 ]} su 1 true
    (list_to_map [(100, cell (UInfo (info_v1 0 0 0 0 [])));
                  (200, cell (U32 id))])
    [].

(** A machine with these three personas, an unprivileged caller, a record
    at address 100 that filters on neither name nor id, the limit [limit]
    at address 300 and writable id slots at the addresses [slots]. *)
Definition find_machine (limit : N) (slots : list Z) : kstate :=
  mk_kstate three_personas 1003 4 ∅ false 1 true
    (list_to_map
       ((100, cell (UInfo (info_v1 4294967295 0 0 0 [])))
        :: (300, cell (USize limit))
        :: ((fun a => (a, cell (U32 0))) <$> slots)))
    [].


(** The same machine with a record that filters on the login [name]. *)
Definition find_by_name_machine (name : list ascii) (limit : N)
  (slots : list Z) : kstate :=
  mk_kstate three_personas 1003 4 ∅ false 1 true
    (list_to_map
       ((100, cell (UInfo (info_v1 4294967295 0 0 0 name)))
        :: (300, cell (USize limit))
        :: ((fun a => (a, cell (U32 0))) <$> slots)))
    [].

(** ** Privilege, frames and error codes

    Readings of a call that the properties of whole operations are stated
    with. *)

(** The caller's privilege set to [b]. *)
Definition set_issuser (b : bool) (st : kstate) : kstate :=
  mk_kstate (table st) (next_id_hint st) (g_max_personas st)
            (proc_persona st) b (curpid st) (malloc_ok st) (umem st)
            (trace st).

(** A computation whose outcome does not depend on the caller's privilege,
    and which leaves the privilege as it is. *)
Definition ignores_privilege {A} (c : M A) : Prop :=
  forall b st, c (set_issuser b st) = (fst (c st), set_issuser b (snd (c st))).

(** The operations whose handlers call [kauth_cred_issuser]. *)
Definition checks_privilege (op : persona_op) : bool :=
  match op with
  | PERSONA_OP_ALLOC | PERSONA_OP_DEALLOC | PERSONA_OP_PIDINFO => true
  | _ => false
  end.

(** The persona that process [pid] has adopted, if it is still in the
    table: what the registry answers to [current_persona_get] and
    [persona_proc_get]. *)
Definition adopted (pid : Z) (st : kstate) : option Z :=
  match proc_persona st !! pid with
  | Some id => if nonnull (table st !! id) then Some id else None
  | None => None
  end.

(** An entry that a release of one reference does not remove: it is valid
    or somebody else still holds a reference on it. *)
Definition entry_live (e : persona) : bool :=
  pna_valid e || (0 <? pna_refcount e)%nat.

Definition entries_live (tbl : gmap Z persona) : Prop :=
  map_Forall (fun _ e => entry_live e = true) tbl.

(** A computation that leaves the reading [f] of the state as it was. *)
Definition preserves {A B} (f : kstate -> B) (c : M A) : Prop :=
  forall st, f (snd (c st)) = f st.

(** The addresses a call may store to: the id and the record for an
    allocation, the id for Get-Current, the record for the two queries, the
    count and the slots of the id array for a search. *)
Definition may_write (pargs : persona_args) (a : Z) : Prop :=
  match pargs_operation pargs with
  | PERSONA_OP_ALLOC => a = pargs_id pargs \/ a = pargs_info pargs
  | PERSONA_OP_GET => a = pargs_id pargs
  | PERSONA_OP_INFO | PERSONA_OP_PIDINFO => a = pargs_info pargs
  | PERSONA_OP_FIND =>
      a = pargs_idlen pargs \/
      exists i : nat, a = pargs_id pargs + Z.of_nat i * 4
  | PERSONA_OP_DEALLOC | PERSONA_OP_OTHER _ => False
  end.

(** The operations that add or retire a persona. *)
Definition changes_registry (op : persona_op) : bool :=
  match op with
  | PERSONA_OP_ALLOC | PERSONA_OP_DEALLOC => true
  | _ => false
  end.

(** The error codes each operation can return. *)
Definition may_fail_with (op : persona_op) (e : errno) : bool :=
  match op, e with
  | PERSONA_OP_ALLOC,
    (EPERM | EFAULT | EINVAL | DuplicateId | CapacityExceeded
     | InvalidArgument | TooManyGroups) => true
  | PERSONA_OP_DEALLOC, (EPERM | EFAULT | ESRCH) => true
  | PERSONA_OP_GET, (ESRCH | EFAULT) => true
  | PERSONA_OP_INFO, (EFAULT | ESRCH | EINVAL) => true
  | PERSONA_OP_PIDINFO, (EFAULT | EPERM | ESRCH | EINVAL) => true
  | PERSONA_OP_FIND, (EFAULT | EINVAL | ENOMEM) => true
  | PERSONA_OP_OTHER _, ENOSYS => true
  | _, _ => false
  end.

(** The machine [st] when [MALLOC] finds no memory. *)
Definition without_memory (st : kstate) : kstate :=
  mk_kstate (table st) (next_id_hint st) (g_max_personas st)
            (proc_persona st) (issuser st) (curpid st) false (umem st)
            (trace st).

(** * Properties *)

Ltac run_m :=
  unfold update_table, bind, ret, gets, modify; simpl.

Lemma new_events_app st st' evs :
  trace st' = trace st ++ evs -> new_events st st' = evs.
Proof.
  unfold new_events. intros ->. by rewrite drop_app_length.
Qed.

(** Releasing a reference never changes which personas are active. *)
Lemma persona_active_put_entry id id' tbl :
  persona_active id (put_entry id' tbl) = persona_active id tbl.
Proof.
  unfold persona_active, put_entry.
  destruct (tbl !! id') as [p|] eqn:Hp; [|done].
  destruct (decide (id = id')) as [->|Hne].
  - rewrite Hp.
    destruct (_ && _) eqn:Hc.
    + rewrite lookup_delete_eq.
      apply andb_true_iff in Hc as [_ Hc]. by destruct (pna_valid p).
    + by rewrite lookup_alter_eq, Hp.
  - destruct (_ && _).
    + by rewrite lookup_delete_ne.
    + by rewrite lookup_alter_ne.
Qed.

Lemma put_entry_lookup_ne id p tbl :
  p <> id -> put_entry id tbl !! p = tbl !! p.
Proof.
  intros Hne. unfold put_entry.
  destruct (tbl !! id) as [e|]; [|done].
  destruct (_ && _).
  - by rewrite lookup_delete_ne.
  - by rewrite lookup_alter_ne.
Qed.

Lemma dealloc_table pid e (tbl : gmap Z persona) :
  tbl !! pid = Some e ->
  put_entry pid (put_entry pid
    (alter (fun q => persona_get_ref (with_valid false q)) pid tbl)) !! pid
  = after_dealloc e.
Proof.
  intros He. destruct e as [ty lg gid gs gm rc v].
  unfold after_dealloc, put_entry at 2. rewrite lookup_alter_eq, He. simpl.
  destruct rc as [|rc]; simpl.
  - unfold put_entry. by rewrite !lookup_delete_eq.
  - unfold put_entry. rewrite !lookup_alter_eq, He. simpl.
    destruct rc as [|rc]; simpl.
    + by rewrite lookup_delete_eq.
    + rewrite !lookup_alter_eq, He. done.
Qed.

Section Dealloc.
Context `{PersonaConsts}.

Lemma dealloc_run st idp pid :
  u32_at (umem st) idp = Some pid ->
  let '(error, st') := kpersona_dealloc_syscall idp st in
  if issuser st then
    if persona_active pid (table st) then
      error = None /\
      trace st' = trace st ++ [EvInvalidate pid; EvGet pid; EvPut pid; EvPut pid] /\
      persona_active pid (table st') = false /\
      table st' !! pid = table st !! pid ≫= after_dealloc /\
      (forall p, p <> pid -> table st' !! p = table st !! p)
    else
      error = Some ESRCH /\
      trace st' = trace st ++ [EvInvalidate pid] /\
      table st' = table st
  else error = Some EPERM /\ st' = st.
Proof.
  intros Hid.
  unfold kpersona_dealloc_syscall, copyin_u32, persona_lookup_and_invalidate.
  run_m.
  destruct (issuser st); simpl; [|done].
  rewrite Hid. simpl.
  destruct (persona_active pid (table st)) eqn:Ha; simpl; [|done].
  split; [done|]. split; [by rewrite <- !app_assoc|].
  split.
  { rewrite !persona_active_put_entry. unfold persona_active in *.
    rewrite lookup_alter_eq. by destruct (table st !! pid). }
  split.
  - unfold persona_active in Ha.
    destruct (table st !! pid) as [e|] eqn:He; [|done].
    by rewrite (dealloc_table pid e).
  - intros p Hp. by rewrite !put_entry_lookup_ne, lookup_alter_ne.
Qed.
End Dealloc.

Section Transfer.
Context `{PersonaConsts}.

Lemma kpersona_copyin_ok st infop k0 k w :
  umem st !! infop = Some (mk_ucell (UInfo k) w) ->
  persona_info_version k = PERSONA_INFO_V1 ->
  kpersona_copyin infop k0 st =
    (None, set_persona_name (<[MAXLOGNAME := nul]> (persona_name k)) k, st).
Proof.
  intros Hm Hv. unfold kpersona_copyin, copyin_u32, copyin_info, u32_at.
  run_m. rewrite Hm. simpl. rewrite Hv, Z.eqb_refl. simpl. by rewrite Hm.
Qed.

Lemma kpersona_copyin_bad_version st infop k0 v :
  u32_at (umem st) infop = Some v ->
  v <> PERSONA_INFO_V1 ->
  kpersona_copyin infop k0 st = (Some EINVAL, k0, st).
Proof.
  intros Hm Hv. unfold kpersona_copyin, copyin_u32. run_m.
  rewrite Hm. simpl. by destruct (Z.eqb_spec v PERSONA_INFO_V1).
Qed.


End Transfer.

(** Case analysis along the paths of a handler: splits on the next test
    whose outcome is not known. *)
Ltac split_path :=
  match goal with
  | |- context [if ?b then _ else _] => destruct b eqn:?; simpl
  | |- context [match ?o with Some _ => _ | None => _ end] =>
      destruct o eqn:?; simpl
  end.

Lemma put_entry_lookup_valid id e tbl :
  tbl !! id = Some e -> pna_valid e = true ->
  put_entry id tbl !! id = Some (with_refcount (Nat.pred (pna_refcount e)) e).
Proof.
  intros He Hv. unfold put_entry. rewrite He, Hv, andb_false_r.
  by rewrite lookup_alter_eq, He.
Qed.

Lemma next_unused_fresh_in fuel : forall cand tbl (X : gset Z),
  (forall k, is_Some (tbl !! k) -> cand <= k -> k ∈ X) ->
  (size X <= fuel)%nat ->
  tbl !! next_unused fuel cand tbl = None.
Proof.
  induction fuel as [|fuel IH]; intros cand tbl X HX Hsize; simpl.
  - destruct (tbl !! cand) eqn:E; [|done].
    assert (cand ∈ X) as Hin by (apply HX; [by rewrite E | lia]).
    assert (X ≡ ∅) as HE by (apply size_empty_inv; lia).
    set_solver.
  - destruct (tbl !! cand) eqn:E; [|done].
    assert (cand ∈ X) as Hin by (apply HX; [by rewrite E | lia]).
    apply (IH _ _ (X ∖ {[cand]})).
    + intros k Hk Hle. apply elem_of_difference. split.
      * apply HX; [done | lia].
      * rewrite elem_of_singleton. lia.
    + rewrite size_difference by set_solver. rewrite size_singleton. lia.
Qed.

(** The search for the next unused id always ends on an unused id. *)
Lemma next_unused_fresh hint (tbl : gmap Z persona) :
  tbl !! next_unused (size tbl) hint tbl = None.
Proof.
  apply (next_unused_fresh_in _ _ _ (dom tbl)).
  - intros k Hk _. by apply elem_of_dom.
  - by rewrite size_dom.
Qed.

(** Looks an id up in a table built by the registry operations. *)
Ltac lookup_table :=
  repeat first
    [ rewrite lookup_alter_eq
    | rewrite lookup_insert_eq
    | rewrite lookup_alter_ne by congruence
    | rewrite lookup_insert_ne by congruence
    | rewrite put_entry_lookup_ne by congruence
    | erewrite put_entry_lookup_valid;
      [ | lookup_table; simpl; reflexivity | reflexivity ] ];
  simpl.

(** Uses the outcomes of the tests recorded along a path. *)
Ltac use_tests :=
  repeat match goal with
         | Hb : ?b = true |- context [?b] => rewrite Hb
         | Hb : ?b = false |- context [?b] => rewrite Hb
         end.

(** Membership in an explicit list of events. *)
Ltac in_events :=
  simpl;
  repeat match goal with
         | |- _ -> _ => intro
         | Hin : _ \/ _ |- _ => destruct Hin
         | Hin : False |- _ => destruct Hin
         | Heq : _ = _ |- _ => (discriminate Heq || (injection Heq as ?; subst))
         end.

(** Arithmetic from the tests recorded along a path. *)
Ltac tests_lia :=
  intros; simpl in *;
  repeat match goal with
         | Hb : (_ <? _)%N = true |- _ => apply N.ltb_lt in Hb
         | Hb : (_ <? _)%N = false |- _ => apply N.ltb_ge in Hb
         | Hb : (_ <=? _)%N = true |- _ => apply N.leb_le in Hb
         | Hb : (_ <=? _)%N = false |- _ => apply N.leb_gt in Hb
         end;
  lia.

Section Alloc.
Context `{PersonaConsts}.

Lemma KAUTH_UID_NONE_eqb : (KAUTH_UID_NONE =? 0) = false.
Proof. apply Z.eqb_neq, KAUTH_UID_NONE_nonzero. Qed.

Lemma alloc_effect st infop idp k w :
  issuser st = true ->
  umem st !! infop = Some (mk_ucell (UInfo k) w) ->
  persona_info_version k = PERSONA_INFO_V1 ->
  let rid := alloc_requested_id k in
  let new_id := alloc_new_id rid (next_id_hint st) (table st) in
  let '(error, st') := kpersona_alloc_syscall infop idp st in
  exists login evs,
    trace st' = trace st ++ EvAlloc rid login (persona_type k) :: evs /\
    match table st !! new_id with
    | Some _ => error = Some DuplicateId /\ table st' = table st /\ evs = []
    | None =>
        (table st' = table st /\ evs = [] /\
         (error = Some CapacityExceeded \/ error = Some InvalidArgument))
        \/ ((forall p, p <> new_id -> table st' !! p = table st !! p) /\
            (exists e, table st' !! new_id = Some e /\ pna_valid e = true /\
               ((0 < persona_ngroups k)%N ->
                error = None \/ (persona_ngroups k <= N.of_nat NGROUPS)%N ->
                pna_gmuid e = gmuid_passed k)) /\
            (forall q gs n g, In (EvSetGroups q gs n g) evs ->
               q = new_id /\ g = gmuid_passed k) /\
            (forall a v ok, In (a, v, ok) (id_copyouts evs) ->
               a = idp /\ v = new_id) /\
            (error = None -> id_copyouts evs = [(idp, new_id, true)]) /\
            ((error <> None /\ released evs = [new_id])
             \/ (released evs = [] /\
                 id_copyouts evs = [(idp, new_id, true)])) /\
            allocs evs = [])
    end.
Proof.
  intros Hsu Hm Hv rid new_id.
  unfold kpersona_alloc_syscall.
  unfold bind at 1, gets at 1. rewrite Hsu. simpl.
  unfold bind at 1. rewrite (kpersona_copyin_ok _ _ _ _ _ Hm Hv). simpl.
  unfold persona_alloc. run_m.
  change (alloc_requested_id (set_persona_name _ k)) with rid.
  fold new_id.
  set (login := login_of _).
  destruct (table st !! new_id) as [e0|] eqn:Hnew; simpl.
  { by exists login, []. }
  destruct (N.of_nat (size (table st)) =? g_max_personas st)%N; simpl.
  { exists login, []. split; [done|]. left. auto. }
  destruct (_ || _); simpl.
  { exists login, []. split; [done|]. left. auto. }
  unfold persona_set_gid, persona_set_groups, alloc_out_error, persona_put,
    kpersona_copyout, copyin_u32, copyout; run_m.
  repeat split_path.
  all: rewrite <- ?app_assoc; simpl.
  all: eexists login, _; (split; [reflexivity|]); right.
  all: split; [intros p Hp; by lookup_table|].
  all: split; [eexists; split; [lookup_table; reflexivity|];
               split; [reflexivity|]; simpl; unfold gmuid_passed;
               use_tests; rewrite ?KAUTH_UID_NONE_eqb;
               intros Hpos Hd;
               first [done | tests_lia
                     | destruct Hd; [discriminate | tests_lia]] |].
  all: split; [unfold gmuid_passed; use_tests; in_events; done|].
  all: split; [in_events; done|].
  all: split; [in_events; done|].
  all: split; [simpl; auto|done].
Qed.

Lemma new_events_same st : new_events st st = [].
Proof. unfold new_events. by rewrite drop_all. Qed.

(** A caller without privilege, or a record of another version, leaves the
    state as it was. *)
Lemma alloc_refused st infop idp k w :
  umem st !! infop = Some (mk_ucell (UInfo k) w) ->
  issuser st = false \/ persona_info_version k <> PERSONA_INFO_V1 ->
  kpersona_alloc_syscall infop idp st =
    (Some (if issuser st then EINVAL else EPERM), st).
Proof.
  intros Hm Hor. unfold kpersona_alloc_syscall.
  unfold bind at 1, gets at 1.
  destruct (issuser st) eqn:Hsu; simpl; [|done].
  destruct Hor as [|Hv]; [done|].
  unfold bind at 1.
  rewrite (kpersona_copyin_bad_version _ _ _ (persona_info_version k)); [done| |done].
  unfold u32_at. by rewrite Hm.
Qed.

Lemma alloc_requested_id_cases k :
  alloc_requested_id k =
    if (persona_id k =? PERSONA_ID_NONE) || (persona_id k =? 0)
    then PERSONA_ID_NONE else persona_id k.
Proof.
  unfold alloc_requested_id.
  by destruct (persona_id k =? PERSONA_ID_NONE), (persona_id k =? 0).
Qed.

(** C5 (amended): the allocation handler asks the registry to generate an
    id exactly when the requested id is the none sentinel or zero; the
    generated id is the next unused one.  For every other requested id the
    registry is asked for that id: if it is taken the call fails with
    DuplicateId and the table is unchanged.  No entry of another id is
    touched, and on success the entry of the chosen id exists, was absent
    before, and its id is the one copied out. *)
Theorem alloc_generates_id_for_none_or_zero st infop idp k w :
  issuser st = true ->
  umem st !! infop = Some (mk_ucell (UInfo k) w) ->
  persona_info_version k = PERSONA_INFO_V1 ->
  let generated := (persona_id k =? PERSONA_ID_NONE) || (persona_id k =? 0) in
  let new_id :=
    if generated
    then next_unused (size (table st)) (next_id_hint st) (table st)
    else persona_id k in
  let R := kpersona_alloc_syscall infop idp st in
  let evs := new_events st (snd R) in
  allocs evs = [if generated then PERSONA_ID_NONE else persona_id k] /\
  (generated = true -> table st !! new_id = None) /\
  (generated = false -> is_Some (table st !! persona_id k) ->
     fst R = Some DuplicateId /\ table (snd R) = table st) /\
  (forall p, p <> new_id -> table (snd R) !! p = table st !! p) /\
  (fst R = None ->
     table st !! new_id = None /\
     persona_active new_id (table (snd R)) = true /\
     id_copyouts evs = [(idp, new_id, true)]).
Proof.
  intros Hsu Hm Hv generated new_id R evs. subst R evs.
  pose proof (alloc_effect st infop idp k w Hsu Hm Hv) as Heff.
  cbv zeta in Heff.
  rewrite alloc_requested_id_cases in Heff. fold generated in Heff.
  assert (alloc_new_id (if generated then PERSONA_ID_NONE else persona_id k)
            (next_id_hint st) (table st) = new_id) as Hid.
  { unfold alloc_new_id, new_id. destruct generated eqn:Hg.
    - by rewrite Z.eqb_refl.
    - apply orb_false_iff in Hg as [-> _]. done. }
  rewrite Hid in Heff.
  destruct (kpersona_alloc_syscall infop idp st) as [error st'].
  destruct Heff as (login & evs & Htr & Hcases). simpl.
  rewrite (new_events_app _ _ _ Htr). simpl.
  assert (allocs evs = []) as ->.
  { destruct (table st !! new_id).
    - by destruct Hcases as (_ & _ & ->).
    - by destruct Hcases as [(_ & -> & _)|(_ & _ & _ & _ & _ & _ & ->)]. }
  split; [done|].
  split; [intros Hg; unfold new_id; rewrite Hg; apply next_unused_fresh|].
  destruct (table st !! new_id) as [e0|] eqn:Hnew.
  - destruct Hcases as (-> & -> & ->).
    split; [done|]. split; [done|]. done.
  - split.
    { intros Hg [e He]. unfold new_id in Hnew. rewrite Hg in Hnew. congruence. }
    destruct Hcases as [(-> & -> & Herr)
                       |(Hframe & (e & He & Hval & _) & _ & _ & Hok & _)].
    + split; [done|]. intros ->. by destruct Herr.
    + split; [done|]. intros Herr. split; [done|].
      split; [unfold persona_active; by rewrite He|].
      by apply Hok.
Qed.

(** A failed allocation that had created its entry releases the reference
    of the allocation, unless the id had already been copied out: then the
    failure is that of the copy-out of the record, and nothing is
    released. *)
Lemma alloc_failure_releases_unless_id_copied st infop idp k w :
  issuser st = true ->
  umem st !! infop = Some (mk_ucell (UInfo k) w) ->
  persona_info_version k = PERSONA_INFO_V1 ->
  let new_id :=
    alloc_new_id (alloc_requested_id k) (next_id_hint st) (table st) in
  let '(error, st') := kpersona_alloc_syscall infop idp st in
  let evs := new_events st st' in
  error <> None ->
  is_Some (table st' !! new_id) -> table st !! new_id = None ->
  released evs = [new_id] \/
  (released evs = [] /\ id_copyouts evs = [(idp, new_id, true)]).
Proof.
  intros Hsu Hm Hv new_id.
  pose proof (alloc_effect st infop idp k w Hsu Hm Hv) as Heff.
  cbv zeta in Heff. fold new_id in Heff.
  destruct (kpersona_alloc_syscall infop idp st) as [error st'].
  destruct Heff as (login & evs & Htr & Hcases).
  cbv zeta. intros Herr Hin Hnew. rewrite Hnew in Hcases.
  rewrite (new_events_app _ _ _ Htr). simpl.
  destruct Hcases as [(Htbl & _)|(_ & _ & _ & _ & _ & [[_ Hrel]|Hrel] & _)].
  - rewrite Htbl, Hnew in Hin. by destruct Hin.
  - by left.
  - by right.
Qed.

(** C7: when the record of an allocation call carries a non-empty group
    list and a zero resolution identity, the identity handed to Set-Groups
    is the disabled sentinel, which is not zero.  When the group count is
    within the capacity, so that Set-Groups stores the groups, every entry
    the call adds to the registry stores the sentinel; and whenever the call
    succeeds, the entry whose id is copied out stores the sentinel. *)
Theorem alloc_zero_gmuid_is_stored_as_none st infop idp k w :
  umem st !! infop = Some (mk_ucell (UInfo k) w) ->
  (0 < persona_ngroups k)%N ->
  persona_gmuid k = 0 ->
  let R := kpersona_alloc_syscall infop idp st in
  let evs := new_events st (snd R) in
  KAUTH_UID_NONE <> 0 /\
  (forall q gs n g, In (EvSetGroups q gs n g) evs -> g = KAUTH_UID_NONE) /\
  ((persona_ngroups k <= N.of_nat NGROUPS)%N ->
   forall p e, table st !! p = None -> table (snd R) !! p = Some e ->
     pna_gmuid e = KAUTH_UID_NONE) /\
  (fst R = None ->
     exists p e, id_copyouts evs = [(idp, p, true)] /\
       table (snd R) !! p = Some e /\ pna_gmuid e = KAUTH_UID_NONE).
Proof.
  intros Hm Hn Hg R evs. subst R evs.
  split; [apply KAUTH_UID_NONE_nonzero|].
  destruct (decide (issuser st = true /\
                    persona_info_version k = PERSONA_INFO_V1)) as [[Hsu Hv]|Hno].
  - pose proof (alloc_effect st infop idp k w Hsu Hm Hv) as Heff.
    cbv zeta in Heff. unfold gmuid_passed in Heff.
    rewrite Hg in Heff. simpl in Heff.
    set (new_id := alloc_new_id _ _ _) in Heff.
    destruct (kpersona_alloc_syscall infop idp st) as [error st'].
    destruct Heff as (login & evs & Htr & Hcases). simpl.
    rewrite (new_events_app _ _ _ Htr).
    destruct (table st !! new_id) as [e0|] eqn:Hnew.
    + destruct Hcases as (-> & -> & ->).
      split; [by in_events|]. split; [intros; congruence|done].
    + destruct Hcases as [(-> & -> & Herr)
                         |(Hframe & (e & He & Hval & Hgm) & Hsg & _ & Hok & _)].
      * split; [by in_events|]. split; [intros; congruence|].
        intros ->. by destruct Herr.
      * split.
        { intros q gs n g [Heq|Hin]; [done|]. by apply Hsg in Hin as [_ ->]. }
        split.
        { intros Hcap p e' Hp Hp'. destruct (decide (p = new_id)) as [->|Hne].
          - rewrite He in Hp'. injection Hp' as <-. apply Hgm; auto.
          - rewrite Hframe in Hp' by done. congruence. }
        intros Herr. exists new_id, e. simpl. auto.
  - rewrite (alloc_refused st infop idp k w Hm).
    + simpl. rewrite new_events_same.
      split; [by in_events|]. split; [intros; congruence|done].
    + destruct (issuser st); [right; intros Hv; apply Hno; done | by left].
Qed.

End Alloc.

(** ** The loops of the find handler *)

Lemma bind_run {A B} (c : M A) (k : A -> M B) st :
  bind c k st = k (fst (c st)) (snd (c st)).
Proof. unfold bind. by destruct (c st). Qed.

Lemma get_refs_trace ids : forall st,
  trace (snd (get_refs ids st)) = trace st ++ (EvGet <$> ids).
Proof.
  induction ids as [|id ids IH]; intros st; simpl.
  - by rewrite app_nil_r.
  - run_m. rewrite IH. simpl. by rewrite <- app_assoc.
Qed.

Lemma get_refs_frame ids : forall st,
  umem (snd (get_refs ids st)) = umem st.
Proof.
  induction ids as [|id ids IH]; intros st; simpl; [done|].
  run_m. by rewrite IH.
Qed.

Lemma put_all_trace arr n : forall i st,
  trace (snd (put_all arr i n st)) = trace st ++ (EvPut <$> held arr i n).
Proof.
  induction n as [|n IH]; intros i st; simpl.
  - by rewrite app_nil_r.
  - unfold held. simpl. fold (held arr (S i) n).
    rewrite bind_run, IH.
    destruct (arr !! i) as [[p|]|]; simpl; [|done..].
    run_m. by rewrite <- app_assoc.
Qed.

Lemma copyout_run v a st :
  copyout v a st =
    if can_write (umem st) a v
    then (None, set_umem (<[a := mk_ucell v true]> (umem st))
                  (log (EvCopyout a v true) st))
    else (Some EFAULT, log (EvCopyout a v false) st).
Proof. unfold copyout. run_m. by destruct (can_write _ _ _). Qed.

Lemma copyout_result v a st :
  copyout v a st =
    (if can_write (umem st) a v then None else Some EFAULT,
     snd (copyout v a st)) /\
  umem (snd (copyout v a st)) !! a =
    if can_write (umem st) a v then Some (mk_ucell v true) else umem st !! a.
Proof.
  rewrite copyout_run. destruct (can_write _ _ _); simpl; [|done].
  by rewrite lookup_insert_eq.
Qed.

Lemma put_all_frame arr n : forall i st,
  umem (snd (put_all arr i n st)) = umem st.
Proof.
  induction n as [|n IH]; intros i st; simpl; [done|].
  rewrite bind_run, IH. by destruct (arr !! i) as [[p|]|].
Qed.

(** Copying ids out leaves the regions that do not hold a 32-bit scalar as
    they are. *)
Lemma copyout_ids_frame arr idp u n a c : forall i st error,
  umem st !! a = Some c ->
  same_kind (uc_val c) (U32 0) = false ->
  umem (snd (copyout_ids arr idp u i n error st)) !! a = Some c.
Proof.
  induction n as [|n IH]; intros i st error Ha Hk; simpl; [done|].
  destruct (u <=? N.of_nat i)%N; [done|].
  destruct (arr !! i) as [[p|]|]; [|done..].
  rewrite bind_run, copyout_run.
  destruct (can_write _ _ _) eqn:Hw; simpl; [|done].
  apply IH; [|done]. simpl.
  rewrite lookup_insert_ne; [done|].
  intros Heq. unfold can_write in Hw. rewrite Heq, Ha in Hw.
  apply andb_true_iff in Hw as [_ Hw].
  destruct (uc_val c); simpl in *; congruence.
Qed.

Lemma copyout_trace v a st :
  trace (snd (copyout v a st)) =
    trace st ++ [EvCopyout a v (can_write (umem st) a v)].
Proof. rewrite copyout_run. by destruct (can_write _ _ _). Qed.

Lemma held_take_drop arr n : forall i,
  held arr i n = omap id (take n (drop i arr)).
Proof.
  unfold held. induction n as [|n IH]; intros i; simpl; [done|].
  rewrite IH. destruct (arr !! i) as [x|] eqn:E.
  - by rewrite (drop_S _ _ _ E).
  - apply lookup_ge_None in E.
    rewrite (drop_ge arr i), (drop_ge arr (S i)) by lia. by rewrite take_nil.
Qed.

Lemma omap_id_Some (l : list Z) : omap id (Some <$> l) = l.
Proof. induction l as [|x l IH]; [done|]. rewrite fmap_cons. simpl. by f_equal. Qed.

Lemma omap_id_None n : omap id (replicate n (@None Z)) = [].
Proof. induction n; simpl; done. Qed.

(** The slots the registry filled hold exactly the references found. *)
Lemma held_found found (u : nat) :
  (length found <= u)%nat ->
  held ((Some <$> found) ++ drop (length found) (replicate u None)) 0 u = found.
Proof.
  intros Hle. rewrite held_take_drop, drop_0, take_ge.
  - by rewrite omap_app, omap_id_Some, drop_replicate, omap_id_None, app_nil_r.
  - rewrite length_app, length_fmap, length_drop, length_replicate. lia.
Qed.

Lemma id_events_cons idp i p ps :
  id_events idp i (p :: ps) =
    EvCopyout (idp + Z.of_nat i * 4) (U32 p) true :: id_events idp (S i) ps.
Proof.
  unfold id_events. simpl. rewrite Nat.add_0_r. f_equal.
  apply imap_ext. intros l x _. simpl. by rewrite Nat.add_succ_r.
Qed.

Lemma copyout_ids_run ids rest idp u n : forall i st,
  (i + min n (N.to_nat u - i) <= length ids)%nat ->
  let R := copyout_ids ((Some <$> ids) ++ rest) idp u i n None st in
  exists copied left,
    take (min n (N.to_nat u - i)) (drop i ids) = copied ++ left /\
    ((left = [] /\ fst R = None /\
      trace (snd R) = trace st ++ id_events idp i copied)
     \/ (exists p left', left = p :: left' /\ fst R = Some EFAULT /\
         trace (snd R) = trace st ++ id_events idp i copied ++
           [EvCopyout (idp + Z.of_nat (i + length copied) * 4) (U32 p) false])).
Proof.
  induction n as [|n IH]; intros i st Hlen; simpl.
  - exists [], []. split; [done|]. left. by rewrite app_nil_r.
  - destruct (N.leb_spec u (N.of_nat i)) as [Hu|Hu].
    + replace (N.to_nat u - i)%nat with 0%nat by lia. simpl.
      exists [], []. split; [done|]. left. by rewrite app_nil_r.
    + destruct (N.to_nat u - i)%nat as [|d] eqn:Hd; [lia|].
      simpl in Hlen |- *.
      assert (d = (N.to_nat u - S i)%nat) as -> by lia.
      destruct (lookup_lt_is_Some_2 ids i) as [p Hp]; [lia|].
      rewrite lookup_app_l by (rewrite length_fmap; lia).
      rewrite list_lookup_fmap, Hp. simpl.
      rewrite (drop_S _ _ _ Hp). simpl.
      rewrite bind_run, copyout_run.
      destruct (can_write _ _ _); simpl.
      * destruct (IH (S i) (set_umem
            (<[idp + Z.of_nat i * 4 := mk_ucell (U32 p) true]> (umem st))
            (log (EvCopyout (idp + Z.of_nat i * 4) (U32 p) true) st)))
          as (copied & left & Htake & Hres); [lia|].
        exists (p :: copied), left. split; [by rewrite Htake|].
        rewrite id_events_cons. simpl in Hres.
        destruct Hres as [(-> & Hfst & Htr)|(q & left' & -> & Hfst & Htr)].
        -- left. split; [done|]. split; [done|by rewrite Htr, <- app_assoc].
        -- right. exists q, left'. split; [done|]. split; [done|].
           rewrite Htr, <- !app_assoc. simpl.
           by rewrite Nat.add_succ_r.
      * exists [], (p :: take (min n (N.to_nat u - S i)) (drop (S i) ids)).
        split; [done|]. right. eexists _, _. split; [done|].
        split; [done|]. simpl. by rewrite Nat.add_0_r.
Qed.

Section Find.
Context `{PersonaConsts}.

Lemma persona_find_run login id limit st :
  let found := take (N.to_nat limit) (find_matches login id (table st)) in
  let total := N.of_nat (length (find_matches login id (table st))) in
  fst (persona_find login id limit st) = (None, found, total) /\
  trace (snd (persona_find login id limit st)) =
    trace st ++ EvFind login id limit :: (EvGet <$> found) /\
  umem (snd (persona_find login id limit st)) = umem st.
Proof.
  intros found total. unfold persona_find.
  rewrite bind_run. simpl. rewrite bind_run. simpl. rewrite bind_run. simpl.
  fold found. split; [done|].
  rewrite get_refs_trace, get_refs_frame. simpl. by rewrite <- app_assoc.
Qed.

Ltac early_out :=
  match goal with
  | |- context [copyout ?v ?a ?s] =>
      let Ho := fresh in
      pose proof (copyout_trace v a s) as Ho;
      destruct (copyout v a s) as [? ?]; simpl in Ho |- *;
      right; left; eauto
  end.

Lemma copyout_ids_none arr idp n st :
  copyout_ids arr idp 0 0 n None st = (None, st).
Proof. by destruct n. Qed.

Lemma find_effect st infop idp idlenp :
  let '(error, st') := kpersona_find_syscall infop idp idlenp st in
  (st' = st /\ error = Some EFAULT)
  \/ (exists ok e, trace st' = trace st ++ [EvCopyout idlenp (USize 0) ok] /\
        error = Some e)
  \/ (exists n w k w',
        umem st !! idlenp = Some (mk_ucell (USize n) w) /\
        umem st !! infop = Some (mk_ucell (UInfo k) w') /\
        persona_info_version k = PERSONA_INFO_V1 /\
        let u := if (g_max_personas st <? n)%N then g_max_personas st else n in
        let login :=
          login_of (set_persona_name (<[MAXLOGNAME := nul]> (persona_name k)) k) in
        let matches := find_matches login (persona_id k) (table st) in
        let found := take (N.to_nat u) matches in
        exists copied left,
          found = copied ++ left /\
          trace st' = trace st ++
            EvFind login (persona_id k) u :: (EvGet <$> found) ++
            id_events idp 0 copied ++ fail_events idp copied left ++
            (EvPut <$> found) ++
            [EvCopyout idlenp (USize (N.of_nat (length matches))) w] /\
          (w = true ->
           umem st' !! idlenp =
             Some (mk_ucell (USize (N.of_nat (length matches))) true)) /\
          error = match left with [] => None | _ :: _ => Some EFAULT end).
Proof.
  unfold kpersona_find_syscall, copyin_size, kpersona_copyin, copyin_u32,
    u32_at, copyin_info, find_out, MALLOC, call_persona_find.
  run_m.
  destruct (umem st !! idlenp) as [[[k0|v0|n] w]|] eqn:Hlen; simpl; auto.
  set (u := if (g_max_personas st <? n)%N then g_max_personas st else n).
  destruct (umem st !! infop) as [[[k|v|] w']|] eqn:Hm; simpl.
  4: { early_out. }
  3: { early_out. }
  2: { destruct (v =? PERSONA_INFO_V1); simpl; rewrite ?Hm; simpl.
       - early_out.
       - early_out. }
  destruct (Z.eqb_spec (persona_info_version k) PERSONA_INFO_V1) as [Hv|Hv]; simpl.
  2: { early_out. }
  rewrite Hm. simpl.
  set (k1 := set_persona_name _ k).
  change (persona_id k1) with (persona_id k).
  set (matches := find_matches (login_of k1) (persona_id k) (table st)).
  destruct (N.ltb_spec 0 u) as [Hu|Hu]; simpl.
  - destruct (malloc_ok st); simpl; [|early_out].
    destruct (persona_find_run (login_of k1) (persona_id k) u st)
      as (Hpf & Htr1 & Hm1).
    fold matches in Hpf, Htr1.
    set (found := take (N.to_nat u) matches) in *.
    destruct (persona_find _ _ _ st) as [[[e found'] total'] st1].
    simpl in Hpf, Htr1, Hm1. injection Hpf as -> -> ->. simpl.
    assert (length found = min (N.to_nat u) (length matches)) as Hlf
      by apply length_take.
    destruct (copyout_ids_run found
                (drop (length found) (replicate (N.to_nat u) None)) idp u
                (N.to_nat (N.of_nat (length matches))) 0 st1)
      as (copied & left & Htake & Hres); [lia|].
    rewrite drop_0, take_ge in Htake by lia.
    pose proof (copyout_ids_frame
      ((Some <$> found) ++ drop (length found) (replicate (N.to_nat u) None))
      idp u (N.to_nat (N.of_nat (length matches))) idlenp
      (mk_ucell (USize n) w) 0 st1 None) as Hm2.
    rewrite Hm1 in Hm2. specialize (Hm2 Hlen eq_refl).
    destruct (copyout_ids _ _ _ _ _ _ st1) as [a1 st2]. simpl in Hres, Hm2.
    pose proof (put_all_trace
      ((Some <$> found) ++ drop (length found) (replicate (N.to_nat u) None))
      (N.to_nat u) 0 st2) as Hput.
    pose proof (put_all_frame
      ((Some <$> found) ++ drop (length found) (replicate (N.to_nat u) None))
      (N.to_nat u) 0 st2) as Hm3.
    rewrite held_found in Hput by lia.
    destruct (put_all _ _ _ st2) as [[] st3]. simpl in Hput, Hm3.
    pose proof (copyout_trace (USize (N.of_nat (length matches))) idlenp st3)
      as Hout.
    destruct (copyout_result (USize (N.of_nat (length matches))) idlenp st3)
      as [_ Hm4].
    assert (can_write (umem st3) idlenp (USize (N.of_nat (length matches))) = w)
      as Hw.
    { unfold can_write. rewrite Hm3, Hm2. simpl. by rewrite andb_true_r. }
    rewrite Hw in Hout, Hm4.
    destruct (copyout _ _ st3) as [e4 st4]. simpl in Hout, Hm4.
    right; right. exists n, w, k, w'. do 3 (split; [done|]).
    exists copied, left.
    split; [done|].
    rewrite Hout, Hput.
    split; [|split; [by intros ->|]].
    + destruct Hres as [(-> & -> & ->)|(p & left' & -> & -> & ->)];
        rewrite Htr1; simpl; rewrite <- ?app_assoc; simpl;
        rewrite <- ?app_assoc; done.
    + by destruct Hres as [(-> & -> & _)|(p & left' & -> & -> & _)].
  - assert (u = 0%N) as Hu0 by lia. rewrite Hu0. simpl.
    rewrite copyout_ids_none.
    pose proof (copyout_trace (USize (N.of_nat (length matches))) idlenp
      (log (EvFind (login_of k1) (persona_id k) 0) st)) as Hout.
    destruct (copyout_result (USize (N.of_nat (length matches))) idlenp
      (log (EvFind (login_of k1) (persona_id k) 0) st)) as [_ Hm4].
    assert (can_write (umem (log (EvFind (login_of k1) (persona_id k) 0) st))
              idlenp (USize (N.of_nat (length matches))) = w) as Hw.
    { unfold can_write. simpl. rewrite Hlen. simpl. by rewrite andb_true_r. }
    rewrite Hw in Hout, Hm4.
    destruct (copyout _ _ _) as [e4 st4]. simpl in Hout, Hm4.
    right; right. exists n, w, k, w'. do 3 (split; [done|]).
    fold u. rewrite Hu0. simpl.
    exists [], []. split; [done|]. simpl.
    rewrite Hout, <- app_assoc. split; [done|]. split; [by intros ->|done].
Qed.
End Find.

(** ** Reading the trace of a search *)

Lemma omap_fmap_Some {A B C} (f : B -> option C) (g : A -> B) (h : A -> C)
  (l : list A) :
  (forall x, f (g x) = Some (h x)) -> omap f (g <$> l) = h <$> l.
Proof.
  intros Hf. induction l as [|x l IH]; simpl; [done|].
  rewrite Hf. f_equal. exact IH.
Qed.

Lemma omap_fmap_None {A B C} (f : B -> option C) (g : A -> B) (l : list A) :
  (forall x, f (g x) = None) -> omap f (g <$> l) = [].
Proof.
  intros Hf. induction l as [|x l IH]; simpl; [done|].
  rewrite Hf. exact IH.
Qed.

Lemma omap_imap_None {A B C} (f : B -> option C) (g : nat -> A -> B)
  (l : list A) :
  (forall i x, f (g i x) = None) -> omap f (imap g l) = [].
Proof.
  revert g. induction l as [|x l IH]; intros g Hf; [done|].
  simpl. rewrite Hf. apply IH. intros i y. apply Hf.
Qed.

Lemma acquired_app l1 l2 : acquired (l1 ++ l2) = acquired l1 ++ acquired l2.
Proof. apply omap_app. Qed.
Lemma released_app l1 l2 : released (l1 ++ l2) = released l1 ++ released l2.
Proof. apply omap_app. Qed.
Lemma id_copyouts_app l1 l2 :
  id_copyouts (l1 ++ l2) = id_copyouts l1 ++ id_copyouts l2.
Proof. apply omap_app. Qed.

Lemma acquired_gets l : acquired (EvGet <$> l) = l.
Proof.
  unfold acquired. rewrite (omap_fmap_Some _ _ id); [|done].
  by rewrite list_fmap_id.
Qed.
Lemma acquired_puts l : acquired (EvPut <$> l) = [].
Proof. by apply omap_fmap_None. Qed.
Lemma acquired_id_events idp i l : acquired (id_events idp i l) = [].
Proof. by apply omap_imap_None. Qed.
Lemma acquired_fail_events idp c l : acquired (fail_events idp c l) = [].
Proof. by destruct l. Qed.

Lemma released_gets l : released (EvGet <$> l) = [].
Proof. by apply omap_fmap_None. Qed.
Lemma released_puts l : released (EvPut <$> l) = l.
Proof.
  unfold released. rewrite (omap_fmap_Some _ _ id); [|done].
  by rewrite list_fmap_id.
Qed.
Lemma released_id_events idp i l : released (id_events idp i l) = [].
Proof. by apply omap_imap_None. Qed.
Lemma released_fail_events idp c l : released (fail_events idp c l) = [].
Proof. by destruct l. Qed.

Lemma id_copyouts_gets l : id_copyouts (EvGet <$> l) = [].
Proof. by apply omap_fmap_None. Qed.
Lemma id_copyouts_puts l : id_copyouts (EvPut <$> l) = [].
Proof. by apply omap_fmap_None. Qed.
Lemma id_copyouts_imap (g : nat -> Z) (l : list Z) :
  id_copyouts (imap (fun j p => EvCopyout (g j) (U32 p) true) l) =
    imap (fun j p => (g j, p, true)) l.
Proof.
  revert g. induction l as [|x l IH]; intros g; [done|].
  simpl. f_equal. exact (IH (g ∘ S)).
Qed.

Lemma id_copyouts_id_events idp i l :
  id_copyouts (id_events idp i l) =
    imap (fun j p => (idp + Z.of_nat (i + j) * 4, p, true)) l.
Proof. apply (id_copyouts_imap (fun j => idp + Z.of_nat (i + j) * 4)). Qed.

(** Reads the references and the copy-outs off a trace given by parts. *)
Ltac read_trace :=
  rewrite ?acquired_app, ?released_app, ?id_copyouts_app,
    ?acquired_gets, ?acquired_puts, ?acquired_id_events,
    ?acquired_fail_events, ?released_gets, ?released_puts,
    ?released_id_events, ?released_fail_events, ?id_copyouts_gets,
    ?id_copyouts_puts, ?id_copyouts_id_events;
  simpl; rewrite ?app_nil_r.

(** The matches of a search are distinct entries. *)
Lemma find_matches_NoDup `{PersonaConsts} login id tbl :
  NoDup (find_matches login id tbl).
Proof.
  unfold find_matches.
  assert (forall l : list (Z * persona),
            sublist (fst <$> List.filter (persona_matches login id) l)
                    (fst <$> l)) as Hsub.
  { induction l as [|x l IH]; simpl; [done|].
    destruct (persona_matches login id x); simpl.
    - by apply sublist_skip.
    - by apply sublist_cons. }
  apply (sublist_NoDup _ ((map_to_list tbl).*1));
    [apply NoDup_fst_map_to_list | apply Hsub].
Qed.

(** ** The table across a search *)

Lemma put_entry_alter_ne (f : persona -> persona) a b tbl :
  a <> b -> put_entry a (alter f b tbl) = alter f b (put_entry a tbl).
Proof.
  intros Hne. apply map_eq. intros k.
  destruct (decide (k = a)) as [->|Hka].
  - rewrite lookup_alter_ne by done.
    unfold put_entry. rewrite lookup_alter_ne by done.
    destruct (tbl !! a) as [e|] eqn:He; [|by rewrite lookup_alter_ne].
    destruct (_ && _).
    + by rewrite !lookup_delete_eq.
    + by rewrite !lookup_alter_eq, lookup_alter_ne.
  - rewrite put_entry_lookup_ne by done.
    destruct (decide (k = b)) as [->|Hkb].
    + by rewrite !lookup_alter_eq, put_entry_lookup_ne.
    + by rewrite !lookup_alter_ne, put_entry_lookup_ne.
Qed.

(** Releasing the reference just taken on an active entry restores it. *)
Lemma put_entry_get_ref id tbl :
  persona_active id tbl = true ->
  put_entry id (alter persona_get_ref id tbl) = tbl.
Proof.
  unfold persona_active, put_entry. intros Ha. rewrite lookup_alter_eq.
  destruct (tbl !! id) as [e|] eqn:He; [|done]. simpl. rewrite Ha. simpl.
  rewrite andb_false_r. apply map_eq. intros k.
  destruct (decide (k = id)) as [->|Hne].
  - rewrite !lookup_alter_eq, He. simpl. by destruct e.
  - by rewrite !lookup_alter_ne.
Qed.

Lemma put_entry_get_refs a ids : forall tbl,
  a ∉ ids ->
  put_entry a (foldl (fun T id => alter persona_get_ref id T) tbl ids) =
  foldl (fun T id => alter persona_get_ref id T) (put_entry a tbl) ids.
Proof.
  induction ids as [|b ids IH]; intros tbl Hin; simpl; [done|].
  apply not_elem_of_cons in Hin as [Hne Hin].
  by rewrite IH, put_entry_alter_ne.
Qed.

(** Taking a reference on each of a list of distinct active entries and
    then releasing each of them leaves the table as it was. *)
Lemma put_get_refs ids : forall tbl,
  NoDup ids ->
  (forall id, id ∈ ids -> persona_active id tbl = true) ->
  foldl (fun T id => put_entry id T)
    (foldl (fun T id => alter persona_get_ref id T) tbl ids) ids = tbl.
Proof.
  induction ids as [|a ids IH]; intros tbl Hnd Hact; simpl; [done|].
  apply NoDup_cons in Hnd as [Hin Hnd].
  rewrite put_entry_get_refs, put_entry_get_ref by (done || apply Hact; left).
  apply IH; [done|]. intros id Hid. apply Hact. by right.
Qed.

Lemma get_refs_table ids : forall st,
  table (snd (get_refs ids st)) =
  foldl (fun T id => alter persona_get_ref id T) (table st) ids.
Proof.
  induction ids as [|id ids IH]; intros st; simpl; [done|].
  run_m. by rewrite IH.
Qed.

Lemma put_all_table arr n : forall i st,
  table (snd (put_all arr i n st)) =
  foldl (fun T id => put_entry id T) (table st) (held arr i n).
Proof.
  induction n as [|n IH]; intros i st; simpl; [done|].
  unfold held. simpl. fold (held arr (S i) n).
  rewrite bind_run, IH.
  by destruct (arr !! i) as [[p|]|].
Qed.

Lemma copyout_table v a st : table (snd (copyout v a st)) = table st.
Proof. rewrite copyout_run. by destruct (can_write _ _ _). Qed.

Lemma copyout_ids_table arr idp u n : forall i st error,
  table (snd (copyout_ids arr idp u i n error st)) = table st.
Proof.
  induction n as [|n IH]; intros i st error; simpl; [done|].
  destruct (u <=? N.of_nat i)%N; [done|].
  destruct (arr !! i) as [[p|]|]; [|done..].
  rewrite bind_run. pose proof (copyout_table (U32 p) (idp + Z.of_nat i * 4) st).
  destruct (copyout _ _ st) as [e st1]. simpl in *.
  destruct (failed e); [done|]. by rewrite IH.
Qed.

Section FindTable.
Context `{PersonaConsts}.

(** The matches of a search are active entries. *)
Lemma find_matches_active login id tbl p :
  p ∈ find_matches login id tbl -> persona_active p tbl = true.
Proof.
  unfold find_matches, persona_active. intros Hin.
  apply list_elem_of_fmap in Hin as ([q e] & -> & Hin).
  apply list_elem_of_In, filter_In in Hin as [Hin Hm].
  apply list_elem_of_In, elem_of_map_to_list in Hin. simpl. rewrite Hin.
  unfold persona_matches in Hm. simpl in Hm.
  by apply andb_true_iff in Hm as [[Hv _]%andb_true_iff _].
Qed.

Ltac table_out :=
  match goal with
  | |- context [copyout ?v ?a ?s] =>
      let Ho := fresh in
      pose proof (copyout_table v a s) as Ho;
      destruct (copyout v a s) as [? ?]; simpl in Ho |- *; done
  end.

(** A find call leaves the table as it was: every reference it takes is
    released before it returns, whatever the outcome. *)
Lemma find_keeps_table st infop idp idlenp :
  table (snd (kpersona_find_syscall infop idp idlenp st)) = table st.
Proof.
  unfold kpersona_find_syscall, copyin_size, kpersona_copyin, copyin_u32,
    u32_at, copyin_info, find_out, MALLOC, call_persona_find.
  run_m.
  destruct (umem st !! idlenp) as [[[k0|v0|n] w]|] eqn:Hlen; simpl; auto.
  set (u := if (g_max_personas st <? n)%N then g_max_personas st else n).
  destruct (umem st !! infop) as [[[k|v|] w']|] eqn:Hm; simpl.
  4: { table_out. }
  3: { table_out. }
  2: { destruct (v =? PERSONA_INFO_V1); simpl; rewrite ?Hm; simpl;
         table_out. }
  destruct (Z.eqb_spec (persona_info_version k) PERSONA_INFO_V1) as [Hv|Hv]; simpl.
  2: { table_out. }
  rewrite Hm. simpl.
  set (k1 := set_persona_name _ k).
  change (persona_id k1) with (persona_id k).
  set (matches := find_matches (login_of k1) (persona_id k) (table st)).
  destruct (N.ltb_spec 0 u) as [Hu|Hu]; simpl.
  - destruct (malloc_ok st); simpl; [|table_out].
    destruct (persona_find_run (login_of k1) (persona_id k) u st)
      as (Hpf & _ & _).
    fold matches in Hpf.
    set (found := take (N.to_nat u) matches) in *.
    assert (table (snd (persona_find (login_of k1) (persona_id k) u st)) =
            foldl (fun T id => alter persona_get_ref id T) (table st) found)
      as Ht1.
    { unfold persona_find. repeat (rewrite bind_run; simpl).
      by rewrite get_refs_table. }
    destruct (persona_find _ _ _ st) as [[[e found'] total'] st1].
    simpl in Hpf, Ht1. injection Hpf as -> -> ->. simpl.
    assert (length found = min (N.to_nat u) (length matches)) as Hlf
      by apply length_take.
    pose proof (copyout_ids_table
      ((Some <$> found) ++ drop (length found) (replicate (N.to_nat u) None))
      idp u (N.to_nat (N.of_nat (length matches))) 0 st1 None) as Ht2.
    destruct (copyout_ids _ _ _ _ _ _ st1) as [a1 st2]. simpl in Ht2.
    pose proof (put_all_table
      ((Some <$> found) ++ drop (length found) (replicate (N.to_nat u) None))
      (N.to_nat u) 0 st2) as Ht3.
    rewrite held_found in Ht3 by lia.
    destruct (put_all _ _ _ st2) as [[] st3]. simpl in Ht3.
    pose proof (copyout_table (USize (N.of_nat (length matches))) idlenp st3)
      as Ht4.
    destruct (copyout _ _ st3) as [e4 st4]. simpl in Ht4 |- *.
    rewrite Ht4, Ht3, Ht2, Ht1. apply put_get_refs.
    + apply (sublist_NoDup _ matches);
        [apply find_matches_NoDup | apply sublist_take].
    + intros id Hid. apply (find_matches_active (login_of k1) (persona_id k)).
      by apply elem_of_take in Hid as (? & ?%list_elem_of_lookup_2 & _).
  - assert (u = 0%N) as Hu0 by lia. rewrite Hu0. simpl.
    rewrite copyout_ids_none. table_out.
Qed.

End FindTable.

Lemma searches_app l1 l2 : searches (l1 ++ l2) = searches l1 ++ searches l2.
Proof. apply omap_app. Qed.
Lemma searches_gets l : searches (EvGet <$> l) = [].
Proof. by apply omap_fmap_None. Qed.
Lemma searches_puts l : searches (EvPut <$> l) = [].
Proof. by apply omap_fmap_None. Qed.
Lemma searches_id_events idp i l : searches (id_events idp i l) = [].
Proof. by apply omap_imap_None. Qed.
Lemma searches_fail_events idp c l : searches (fail_events idp c l) = [].
Proof. by destruct l. Qed.

Lemma id_copyouts_fail_events idp c l :
  id_copyouts (fail_events idp c l) = fail_copyouts idp c l.
Proof. by destruct l. Qed.

Section FindReadings.
Context `{PersonaConsts}.

(** What a call of the find handler leaves in the trace: nothing of a
    search when it is refused before the search, and otherwise one search
    with the clamped limit, a reference on each entry found, the ids copied
    out up to the first failure, the release of each reference and the
    report of the number of matches. *)
Lemma find_readings st infop idp idlenp :
  let '(error, st') := kpersona_find_syscall infop idp idlenp st in
  let evs := new_events st st' in
  (searches evs = [] /\ acquired evs = [] /\ released evs = [] /\
   id_copyouts evs = [] /\ error <> None)
  \/ (exists n w k w',
        umem st !! idlenp = Some (mk_ucell (USize n) w) /\
        umem st !! infop = Some (mk_ucell (UInfo k) w') /\
        persona_info_version k = PERSONA_INFO_V1 /\
        let u := if (g_max_personas st <? n)%N then g_max_personas st else n in
        let login :=
          login_of (set_persona_name (<[MAXLOGNAME := nul]> (persona_name k)) k) in
        let matches := find_matches login (persona_id k) (table st) in
        let found := take (N.to_nat u) matches in
        exists copied left,
          found = copied ++ left /\
          head evs = Some (EvFind login (persona_id k) u) /\
          searches evs = [(login, persona_id k, u)] /\
          acquired evs = found /\
          released evs = found /\
          id_copyouts evs =
            imap (fun j p => (idp + Z.of_nat (0 + j) * 4, p, true)) copied
            ++ fail_copyouts idp copied left /\
          last evs =
            Some (EvCopyout idlenp (USize (N.of_nat (length matches))) w) /\
          (w = true ->
           umem st' !! idlenp =
             Some (mk_ucell (USize (N.of_nat (length matches))) true)) /\
          error = match left with [] => None | _ :: _ => Some EFAULT end).
Proof.
  pose proof (find_effect st infop idp idlenp) as Heff.
  destruct (kpersona_find_syscall infop idp idlenp st) as [error st'].
  cbv zeta.
  destruct Heff as [[-> ->]|[(ok & e & Htr & ->)|Hsearch]].
  - left. by rewrite new_events_same.
  - left. by rewrite (new_events_app _ _ _ Htr).
  - right. destruct Hsearch as (n & w & k & w' & Hlen & Hm & Hv & Hrest).
    exists n, w, k, w'. do 3 (split; [done|]). cbv zeta in Hrest |- *.
    destruct Hrest as (copied & left & Hfound & Htr & Hmem & Herr).
    exists copied, left. split; [done|].
    rewrite (new_events_app _ _ _ Htr). split; [done|].
    simpl.
    rewrite ?searches_app, ?searches_gets, ?searches_puts,
      ?searches_id_events, ?searches_fail_events.
    read_trace. rewrite id_copyouts_fail_events.
    do 4 (split; [done|]). split; [|done].
    rewrite !app_comm_cons, !app_assoc. apply last_snoc.
Qed.

End FindReadings.

Lemma imap_all_ok (g : nat -> Z) (l : list Z) :
  Forall (fun c : Z * Z * bool => c.2 = true)
         (imap (fun j p => (g j, p, true)) l).
Proof.
  revert g. induction l as [|x l IH]; intros g; simpl; [done|].
  constructor; [done|]. exact (IH (g ∘ S)).
Qed.

Lemma imap_ids (g : nat -> Z) (l : list Z) a p ok :
  In (a, p, ok) (imap (fun j q => (g j, q, true)) l) -> In p l /\ ok = true.
Proof.
  revert g. induction l as [|x l IH]; intros g; simpl; [done|].
  intros [Heq|Hin].
  - injection Heq as _ -> <-. auto.
  - destruct (IH (g ∘ S) Hin). auto.
Qed.

Section FindClaims.
Context `{PersonaConsts}.

(** C3: when the copy-out of the id of a matched entry fails in a find
    call, the call returns the error of the copy, that copy-out is the last
    one of an id (all the ones before it succeeded and the remaining ones
    are skipped, so there are at most as many as references), the
    references released are exactly the references acquired, each of a
    distinct entry, and the table is left as it was before the call. *)
Theorem find_failed_copyout_releases_every_reference
  st infop idp idlenp a p :
  let R := kpersona_find_syscall infop idp idlenp st in
  let evs := new_events st (snd R) in
  In (a, p, false) (id_copyouts evs) ->
  fst R = Some EFAULT /\
  (exists before, id_copyouts evs = before ++ [(a, p, false)] /\
     Forall (fun c => c.2 = true) before) /\
  (length (id_copyouts evs) <= length (acquired evs))%nat /\
  released evs = acquired evs /\
  NoDup (acquired evs) /\
  table (snd R) = table st.
Proof.
  intros R evs. subst R evs.
  pose proof (find_readings st infop idp idlenp) as Hr.
  pose proof (find_keeps_table st infop idp idlenp) as Hkeep.
  destruct (kpersona_find_syscall infop idp idlenp st) as [error st'].
  cbv zeta in Hr. simpl in Hkeep |- *.
  destruct Hr as [(_ & _ & _ & -> & _)|Hs]; [done|].
  destruct Hs as (n & w & k & w' & _ & _ & _ & copied & left & Hfound
                  & _ & _ & -> & -> & -> & _ & _ & ->).
  intros Hin. apply in_app_or in Hin as [Hin|Hin].
  { by apply imap_ids in Hin as [_ ?]. }
  destruct left as [|q left]; [done|]. simpl in Hin |- *.
  destruct Hin as [Heq|[]]. injection Heq as <- <-.
  split; [done|]. split.
  { eexists. split; [done|]. apply imap_all_ok. }
  split.
  { rewrite Hfound, !length_app, length_imap. simpl. lia. }
  split; [done|]. split; [|done].
  apply (sublist_NoDup _ (find_matches
    (login_of (set_persona_name (<[MAXLOGNAME := nul]> (persona_name k)) k))
    (persona_id k) (table st))).
  - apply find_matches_NoDup.
  - apply sublist_take.
Qed.

(** C10: the limit of every search a find call performs is the caller's
    limit clamped to [g_max_personas], the search is the first thing the
    call asks of its collaborators, and the call copies out at most
    [g_max_personas] ids and acquires at most [g_max_personas]
    references. *)
Theorem find_limit_is_clamped_to_max st infop idp idlenp :
  let R := kpersona_find_syscall infop idp idlenp st in
  let evs := new_events st (snd R) in
  let max := g_max_personas st in
  (forall login id limit, In (login, id, limit) (searches evs) ->
     (exists n w, umem st !! idlenp = Some (mk_ucell (USize n) w) /\
                  limit = N.min n max) /\
     head evs = Some (EvFind login id limit)) /\
  (length (id_copyouts evs) <= N.to_nat max)%nat /\
  (length (acquired evs) <= N.to_nat max)%nat.
Proof.
  intros R evs max. subst R evs max.
  pose proof (find_readings st infop idp idlenp) as Hr.
  destruct (kpersona_find_syscall infop idp idlenp st) as [error st'].
  cbv zeta in Hr. simpl.
  destruct Hr as [(-> & -> & _ & -> & _)|Hs].
  { split; [done|]. simpl. lia. }
  destruct Hs as (n & w & k & w' & Hlen & _ & _ & copied & left & Hfound
                  & Hhead & -> & -> & _ & -> & _ & _ & _).
  set (u := if (g_max_personas st <? n)%N then g_max_personas st else n) in *.
  assert (u = N.min n (g_max_personas st)) as Hu.
  { unfold u. destruct (N.ltb_spec (g_max_personas st) n); lia. }
  assert (length copied + length left <= N.to_nat u)%nat as Hle.
  { rewrite <- length_app, <- Hfound, length_take. lia. }
  split.
  { intros login id limit [Heq|[]]. injection Heq as <- <- <-.
    split; [|done]. by exists n, w. }
  split.
  - rewrite length_app, length_imap. destruct left; simpl in *; lia.
  - rewrite Hfound, length_app. lia.
Qed.

End FindClaims.

(** Equality of logins, as the registry compares them. *)
Lemma string_eqb_eq a : forall b, string_eqb a b = true <-> a = b.
Proof.
  induction a as [|x a IH]; intros [|y b]; simpl; try done.
  rewrite andb_true_iff, Ascii.eqb_eq, IH. split.
  - by intros [-> ->].
  - by intros [= -> ->].
Qed.

Section FindTotal.
Context `{PersonaConsts}.

(** The matches of a search are the valid entries with the login and the id
    searched for. *)
Lemma find_matches_spec login id tbl p :
  In p (find_matches login id tbl) <->
  exists e, tbl !! p = Some e /\ pna_valid e = true /\
    (forall l, login = Some l -> pna_login e = l) /\
    (id <> PERSONA_ID_NONE -> p = id).
Proof.
  unfold find_matches. rewrite <- list_elem_of_In, list_elem_of_fmap.
  split.
  - intros ([q e] & -> & Hin).
    apply list_elem_of_In, filter_In in Hin as [Hin Hm].
    apply list_elem_of_In, elem_of_map_to_list in Hin.
    exists e. split; [done|]. unfold persona_matches in Hm. simpl in *.
    apply andb_true_iff in Hm as [[Hv Hl]%andb_true_iff Hi].
    split; [done|]. split.
    + intros l ->. symmetry. by apply string_eqb_eq.
    + intros Hne. apply orb_true_iff in Hi as [Hi|Hi].
      * apply Z.eqb_eq in Hi. done.
      * apply Z.eqb_eq in Hi. done.
  - intros (e & He & Hv & Hl & Hi). exists (p, e). split; [done|].
    apply list_elem_of_In, filter_In. split.
    + by apply list_elem_of_In, elem_of_map_to_list.
    + unfold persona_matches. simpl. rewrite Hv. simpl.
      apply andb_true_iff. split.
      * destruct login as [l|]; [|done]. apply string_eqb_eq.
        symmetry. by apply Hl.
      * destruct (Z.eqb_spec id PERSONA_ID_NONE) as [|Hne]; [done|].
        simpl. apply Z.eqb_eq. symmetry. by apply Hi.
Qed.

Lemma In_take {A} (x : A) n l : In x (take n l) -> In x l.
Proof.
  rewrite <- !list_elem_of_In. intros Hin.
  apply elem_of_take in Hin as (i & Hi & _). by eapply list_elem_of_lookup_2.
Qed.

(** C4: a find call that performs the search searches for what the
    caller's record asks: the login is the name of the record, cut at
    [MAXLOGNAME], or none if the name is empty, and the id is the id of the
    record.  The matches are the valid entries of the registry with that
    login (if one is searched for) and that id (unless it is the none
    sentinel), each counted once.  The call copies out at most as many ids
    as the limit it searched with, which is at most the limit the caller
    gave; each id it copies out is the id of a match; and the count it
    hands to the copy-out at [idlenp] is the number of all matches in the
    registry.  That count can exceed the number of ids copied: with three
    matches and a limit of one, one id is copied out and three is reported.
    With two personas named alice and one named svc, a search for alice
    copies out the ids of the two and reports 2. *)
Theorem find_reports_total_matches :
  (forall st infop idp idlenp login id limit,
     let R := kpersona_find_syscall infop idp idlenp st in
     let evs := new_events st (snd R) in
     In (login, id, limit) (searches evs) ->
     let matches := find_matches login id (table st) in
     let total := N.of_nat (length matches) in
     (exists k w',
        umem st !! infop = Some (mk_ucell (UInfo k) w') /\
        persona_info_version k = PERSONA_INFO_V1 /\
        let name := <[MAXLOGNAME := nul]> (persona_name k) in
        login = (if first_char_set name then Some (cstring name) else None) /\
        id = persona_id k) /\
     NoDup matches /\
     (forall p, In p matches <->
        exists e, table st !! p = Some e /\ pna_valid e = true /\
          (forall l, login = Some l -> pna_login e = l) /\
          (id <> PERSONA_ID_NONE -> p = id)) /\
     (length (id_copyouts evs) <= N.to_nat limit)%nat /\
     (forall a p ok, In (a, p, ok) (id_copyouts evs) -> In p matches) /\
     (exists n w,
        umem st !! idlenp = Some (mk_ucell (USize n) w) /\
        (limit <= n)%N /\
        last evs = Some (EvCopyout idlenp (USize total) w) /\
        (w = true ->
         umem (snd R) !! idlenp = Some (mk_ucell (USize total) true))))
  /\ (let R := @kpersona_find_syscall xnu_consts 100 200 300
                 (find_machine 1 [200]) in
      let evs := new_events (find_machine 1 [200]) (snd R) in
      fst R = None /\
      id_copyouts evs = [(200, 1001, true)] /\
      last evs = Some (EvCopyout 300 (USize 3) true))
  /\ (let R := @kpersona_find_syscall xnu_consts 100 200 300
                 (find_by_name_machine alice 3 [200; 204; 208]) in
      let evs :=
        new_events (find_by_name_machine alice 3 [200; 204; 208]) (snd R) in
      fst R = None /\
      searches evs = [(Some alice, 4294967295, 3%N)] /\
      id_copyouts evs = [(200, 1001, true); (204, 1000, true)] /\
      last evs = Some (EvCopyout 300 (USize 2) true)).
Proof.
  split; [|split; by vm_compute].
  intros st infop idp idlenp login id limit R evs. subst R evs.
  pose proof (find_readings st infop idp idlenp) as Hr.
  destruct (kpersona_find_syscall infop idp idlenp st) as [error st'].
  cbv zeta in Hr. simpl.
  destruct Hr as [(-> & _)|Hs]; [done|].
  destruct Hs as (n & w & k & w' & Hlen & Hm & Hv & copied & left & Hfound
                  & _ & -> & _ & _ & -> & Hlast & Hmem & _).
  set (u := if (g_max_personas st <? n)%N then g_max_personas st else n) in *.
  intros [Heq|[]]. injection Heq as <- <- <-.
  assert (length copied + length left <= N.to_nat u)%nat as Hle.
  { rewrite <- length_app, <- Hfound, length_take. lia. }
  split; [by exists k, w'|].
  split; [apply find_matches_NoDup|].
  split; [intros p; apply find_matches_spec|].
  split.
  { rewrite length_app, length_imap. destruct left; simpl in *; lia. }
  split.
  { intros a p ok' Hin. eapply In_take. rewrite Hfound.
    apply in_or_app. apply in_app_or in Hin as [Hin|Hin].
    - left. by apply imap_ids in Hin as [? _].
    - right. destruct left as [|q left]; [done|].
      destruct Hin as [Heq|[]]. injection Heq as _ <- _. by left. }
  exists n, w. split; [done|]. split; [|done].
  unfold u. destruct (N.ltb_spec (g_max_personas st) n); lia.
Qed.

End FindTotal.

(** The events a handler added, from the trace it built. *)
Ltac events :=
  unfold new_events; simpl;
  rewrite <- ?app_assoc, ?drop_app_length, ?drop_all; simpl.

Section Version.
Context `{PersonaConsts}.





End Version.

Lemma dealloc_keeps_umem idp st :
  umem (snd (kpersona_dealloc_syscall idp st)) = umem st.
Proof.
  unfold kpersona_dealloc_syscall, copyin_u32,
    persona_lookup_and_invalidate, persona_put.
  run_m. repeat split_path; done.
Qed.

Section Claims.
Context `{PersonaConsts}.


(** C8: in a query by owner whose pid is read from [idp], a caller that is
    neither privileged nor the owner itself is refused with [EPERM] and the
    state, trace included, is left as it was: no lookup is attempted.  A
    privileged caller and the owner itself are not refused with [EPERM],
    and the first thing the call does is the lookup of the persona of that
    pid. *)
Theorem pidinfo_permission_precedes_lookup st idp infop pid :
  u32_at (umem st) idp = Some pid ->
  let R := kpersona_pidinfo_syscall idp infop st in
  (issuser st = false -> pid <> curpid st ->
     fst R = Some EPERM /\ snd R = st) /\
  (issuser st = true \/ pid = curpid st ->
     fst R <> Some EPERM /\
     head (new_events st (snd R)) = Some (EvProcGet pid)).
Proof.
  intros Hpid R. subst R.
  unfold kpersona_pidinfo_syscall, copyin_u32, persona_proc_get, proc_get,
    deref, persona_put, kpersona_copyout, copyin_u32, copyout.
  run_m. rewrite Hpid. simpl.
  destruct (issuser st) eqn:Hsu; simpl.
  - split; [done|]. intros _.
    repeat split_path; events; split; done.
  - destruct (Z.eqb_spec pid (curpid st)) as [Heq|Hne]; simpl.
    + split; [done|]. intros _.
      repeat split_path; events; split; done.
    + split; [done|]. by intros [|].
Qed.

Lemma cstring_insert_nul n : forall s,
  cstring (<[n := nul]> s) = take n (cstring s).
Proof.
  induction n as [|n IH]; intros [|c s]; simpl; try done.
  destruct (Ascii.eqb c nul); [done|]. simpl. by rewrite IH.
Qed.

(** C9 (amended): a record of the supported version is copied in without
    error whatever the length of its name; the name the kernel gets is the
    caller's name cut to its first [MAXLOGNAME] characters, so a longer
    name is silently truncated to exactly [MAXLOGNAME] characters. *)
Theorem copyin_truncates_long_name st infop k0 k w :
  umem st !! infop = Some (mk_ucell (UInfo k) w) ->
  persona_info_version k = PERSONA_INFO_V1 ->
  let R := kpersona_copyin infop k0 st in
  let name' := cstring (persona_name (snd (fst R))) in
  fst (fst R) = None /\
  name' = take MAXLOGNAME (cstring (persona_name k)) /\
  (length name' <= MAXLOGNAME)%nat /\
  ((MAXLOGNAME < length (cstring (persona_name k)))%nat ->
   length name' = MAXLOGNAME).
Proof.
  intros Hm Hv R name'. subst R name'.
  rewrite (kpersona_copyin_ok _ _ _ _ _ Hm Hv). simpl.
  rewrite cstring_insert_nul, length_take.
  split; [done|]. split; [done|]. lia.
Qed.

(** C1 (amended): a deallocation whose id is read from [idp] succeeds
    exactly when the caller is privileged and a persona with that id is
    active.  It then invalidates the persona, which takes a reference, and
    releases it twice, in this order; the persona is no longer active, its
    entry has lost one reference and is gone if that was its last, and no
    other entry is touched.  When no persona with that id is active the
    call fails, with [ESRCH] for a privileged caller and with [EPERM]
    otherwise, releases nothing and leaves the table as it was.  The
    privilege is tested before the id is looked at: an unprivileged caller
    gets [EPERM] whether or not the persona is active, and whether or not
    the id can be read at all, and the whole state, the trace included, is
    as it was, so the registry was not asked and nothing was invalidated or
    released; a privileged caller whose id is not active gets [ESRCH]
    after the one lookup. *)
Theorem dealloc_invalidates_then_releases_twice st idp pid :
  u32_at (umem st) idp = Some pid ->
  let R := kpersona_dealloc_syscall idp st in
  let evs := new_events st (snd R) in
  (fst R = None <->
     issuser st = true /\ persona_active pid (table st) = true) /\
  (fst R = None ->
     evs = [EvInvalidate pid; EvGet pid; EvPut pid; EvPut pid] /\
     persona_active pid (table (snd R)) = false /\
     table (snd R) !! pid = table st !! pid ≫= after_dealloc /\
     (forall p, p <> pid -> table (snd R) !! p = table st !! p)) /\
  (persona_active pid (table st) = false ->
     fst R = Some (if issuser st then ESRCH else EPERM) /\
     released evs = [] /\
     table (snd R) = table st) /\
  (issuser st = false -> fst R = Some EPERM /\ snd R = st) /\
  (issuser st = true -> persona_active pid (table st) = false ->
     fst R = Some ESRCH /\ evs = [EvInvalidate pid] /\
     table (snd R) = table st /\ umem (snd R) = umem st) /\
  (forall idp', issuser st = false ->
     kpersona_dealloc_syscall idp' st = (Some EPERM, st)).
Proof.
  intros Hid R evs. subst R evs.
  assert (forall idp', issuser st = false ->
            kpersona_dealloc_syscall idp' st = (Some EPERM, st)) as Hperm.
  { intros idp' Hsu. unfold kpersona_dealloc_syscall.
    unfold bind at 1, gets at 1. by rewrite Hsu. }
  revert Hperm.
  pose proof (dealloc_run st idp pid Hid) as Hrun.
  pose proof (dealloc_keeps_umem idp st) as Hmem.
  destruct (kpersona_dealloc_syscall idp st) as [error st']. simpl in *.
  destruct (issuser st).
  - destruct (persona_active pid (table st)).
    + destruct Hrun as (-> & Htr & Hact & Hpid & Hframe).
      rewrite (new_events_app _ _ _ Htr). done.
    + destruct Hrun as (-> & Htr & Htbl).
      rewrite (new_events_app _ _ _ Htr).
      split; [split; [done|by intros [_ ?]]|]. done.
  - destruct Hrun as [-> ->]. rewrite new_events_same. intros Hperm.
    split; [split; [done|by intros [? _]]|]. done.
Qed.

End Claims.

(** C2: the code breaks the claim.  A privileged caller passes a valid
    record that lies in read-only memory.  The entry is created, the id is
    copied out, the copy-out of the record fails, and the handler returns
    the error without releasing the reference of the allocation: the entry
    stays in the table, valid and with its reference. *)
Theorem alloc_keeps_persona_when_record_copyout_fails :
  let st := ro_record_machine in
  let R := kpersona_alloc_syscall 100 200 st in
  let evs := new_events st (snd R) in
  fst R = Some EFAULT /\
  table st !! 1000 = None /\
  table (snd R) !! 1000 = Some (mk_persona 2 svc 4294967195 [] 0 1 true) /\
  id_copyouts evs = [(200, 1000, true)] /\
  info_copyouts evs = [(100, info_v1 4294967295 0 0 0 svc, false)] /\
  released evs = [].
Proof. by vm_compute. Qed.

(** C5 fails for the requested id zero: zero is not the none sentinel and no
    entry has the id zero, yet the registry is asked to generate an id and
    the new entry gets the id 1000, not zero. *)
Lemma alloc_zero_id_is_generated :
  let k := info_v1 0 0 0 0 svc in
  let st := alloc_machine true k in
  let R := kpersona_alloc_syscall 100 200 st in
  let evs := new_events st (snd R) in
  persona_id k = 0 /\ persona_id k <> PERSONA_ID_NONE /\
  table st !! 0 = None /\
  fst R = None /\
  allocs evs = [PERSONA_ID_NONE] /\
  id_copyouts evs = [(200, 1000, true)] /\
  table (snd R) !! 0 = None /\
  persona_active 1000 (table (snd R)) = true.
Proof. by vm_compute. Qed.

(** C1 fails for an unprivileged caller: no persona with the id 7 is
    active, and the call fails with [EPERM], not with [ESRCH]. *)
Lemma dealloc_unprivileged_is_not_ESRCH :
  let st := id_machine false 7 in
  let R := kpersona_dealloc_syscall 200 st in
  u32_at (umem st) 200 = Some 7 /\
  persona_active 7 (table st) = false /\
  fst R = Some EPERM /\
  fst R <> Some ESRCH.
Proof. by vm_compute. Qed.


(** C9 fails: a name of 256 characters, one more than [MAXLOGNAME], is
    copied in without error, and an allocation with it succeeds; the login
    of the new persona is the first 255 characters. *)
Lemma long_name_is_truncated_not_rejected :
  let k := info_v1 4294967295 0 0 0 long_name in
  let st := alloc_machine true k in
  let C := kpersona_copyin 100 kinfo_uninit st in
  let R := kpersona_alloc_syscall 100 200 st in
  length (cstring (persona_name k)) = 256%nat /\
  MAXLOGNAME = 255%nat /\
  fst (fst C) = None /\
  cstring (persona_name (snd (fst C))) = replicate 255 "a"%char /\
  fst R = None /\
  pna_login <$> table (snd R) !! 1000 = Some (replicate 255 "a"%char).
Proof. by vm_compute. Qed.

(** *** The theorems at concrete calls *)

Lemma dealloc_invalidates_then_releases_twice_witness :
  let st := id_machine true 1000 in
  let R := kpersona_dealloc_syscall 200 st in
  u32_at (umem st) 200 = Some 1000 /\
  new_events st (snd R) =
    [EvInvalidate 1000; EvGet 1000; EvPut 1000; EvPut 1000] /\
  persona_active 1000 (table (snd R)) = false /\
  table (snd R) !! 1000 = None.
Proof.
  assert (u32_at (umem (id_machine true 1000)) 200 = Some 1000) as Hid
    by reflexivity.
  split; [exact Hid|].
  destruct (dealloc_invalidates_then_releases_twice
              (id_machine true 1000) 200 1000 Hid) as (Hiff & Hok & _).
  destruct Hok as (Hevs & Hact & Hpid & _);
    [apply Hiff; split; reflexivity|].
  split; [exact Hevs|]. split; [exact Hact|].
  etransitivity; [exact Hpid|]. reflexivity.
Defined.

Lemma find_failed_copyout_releases_every_reference_witness :
  let st := find_machine 3 [200] in
  let R := kpersona_find_syscall 100 200 300 st in
  let evs := new_events st (snd R) in
  In (204, 1002, false) (id_copyouts evs) /\
  fst R = Some EFAULT /\
  released evs = acquired evs /\
  table (snd R) = table st.
Proof.
  assert (In (204, 1002, false)
            (id_copyouts (new_events (find_machine 3 [200])
               (snd (kpersona_find_syscall 100 200 300
                       (find_machine 3 [200])))))) as Hin
    by (vm_compute; auto).
  split; [exact Hin|].
  destruct (find_failed_copyout_releases_every_reference
              (find_machine 3 [200]) 100 200 300 204 1002 Hin)
    as (Herr & _ & _ & Hrel & _ & Htable).
  split; [exact Herr|]. split; [exact Hrel|exact Htable].
Defined.

Lemma find_reports_total_matches_witness :
  let st := find_by_name_machine alice 1 [200] in
  let R := kpersona_find_syscall 100 200 300 st in
  let evs := new_events st (snd R) in
  In (Some alice, 4294967295, 1%N) (searches evs) /\
  (length (id_copyouts evs) <= 1)%nat /\
  (forall a p ok, In (a, p, ok) (id_copyouts evs) -> p = 1001 \/ p = 1000) /\
  exists ok, last evs = Some (EvCopyout 300 (USize 2) ok).
Proof.
  assert (In (Some alice, 4294967295, 1%N)
            (searches (new_events (find_by_name_machine alice 1 [200])
               (snd (kpersona_find_syscall 100 200 300
                       (find_by_name_machine alice 1 [200])))))) as Hin
    by (vm_compute; auto).
  split; [exact Hin|].
  destruct (proj1 find_reports_total_matches
              (find_by_name_machine alice 1 [200]) 100 200 300
              (Some alice) 4294967295 1%N Hin)
    as (_ & _ & _ & Hlen & Hids & n & w & _ & _ & Hlast & _).
  split; [exact Hlen|]. split.
  - intros a p ok Hp. specialize (Hids a p ok Hp). vm_compute in Hids.
    destruct Hids as [<-|[<-|[]]]; auto.
  - exists w. exact Hlast.
Defined.

Lemma find_limit_is_clamped_to_max_witness :
  let st := find_machine 9 [200; 204; 208; 212] in
  let R := kpersona_find_syscall 100 200 300 st in
  let evs := new_events st (snd R) in
  In (None, 4294967295, 4%N) (searches evs) /\
  (length (acquired evs) <= 4)%nat.
Proof.
  split; [vm_compute; auto|].
  apply (find_limit_is_clamped_to_max
           (find_machine 9 [200; 204; 208; 212]) 100 200 300).
Defined.

Lemma alloc_generates_id_for_none_or_zero_witness :
  let k := info_v1 0 0 0 0 svc in
  let st := alloc_machine true k in
  let R := kpersona_alloc_syscall 100 200 st in
  issuser st = true /\
  umem st !! 100 = Some (cell (UInfo k)) /\
  persona_info_version k = PERSONA_INFO_V1 /\
  allocs (new_events st (snd R)) = [PERSONA_ID_NONE] /\
  table st !! 1000 = None.
Proof.
  split; [reflexivity|]. split; [reflexivity|]. split; [reflexivity|].
  destruct (alloc_generates_id_for_none_or_zero (H := xnu_consts)
              (alloc_machine true (info_v1 0 0 0 0 svc)) 100 200
              (info_v1 0 0 0 0 svc) true eq_refl eq_refl eq_refl)
    as (Hallocs & Hfresh & _).
  split; [exact Hallocs|exact (Hfresh eq_refl)].
Defined.

Lemma alloc_zero_gmuid_is_stored_as_none_witness :
  let k := info_v1 0 0 2 0 svc in
  let st := alloc_machine true k in
  let R := kpersona_alloc_syscall 100 200 st in
  umem st !! 100 = Some (cell (UInfo k)) /\
  (0 < persona_ngroups k)%N /\
  persona_gmuid k = 0 /\
  fst R = None /\
  exists p e, id_copyouts (new_events st (snd R)) = [(200, p, true)] /\
    table (snd R) !! p = Some e /\ pna_gmuid e = KAUTH_UID_NONE.
Proof.
  assert ((0 < persona_ngroups (info_v1 0 0 2 0 svc))%N) as Hn by reflexivity.
  split; [reflexivity|]. split; [exact Hn|]. split; [reflexivity|].
  split; [reflexivity|].
  apply (alloc_zero_gmuid_is_stored_as_none (H := xnu_consts)
           (alloc_machine true (info_v1 0 0 2 0 svc)) 100 200
           (info_v1 0 0 2 0 svc) true eq_refl Hn eq_refl).
  reflexivity.
Defined.


Lemma pidinfo_permission_precedes_lookup_witness :
  let st := id_machine false 5 in
  let R := kpersona_pidinfo_syscall 200 100 st in
  u32_at (umem st) 200 = Some 5 /\
  issuser st = false /\ 5 <> curpid st /\
  fst R = Some EPERM /\ snd R = st.
Proof.
  assert (5 <> curpid (id_machine false 5)) as Hne by discriminate.
  split; [reflexivity|]. split; [reflexivity|]. split; [exact Hne|].
  apply (pidinfo_permission_precedes_lookup
           (id_machine false 5) 200 100 5 eq_refl); [reflexivity|exact Hne].
Defined.

Lemma copyin_truncates_long_name_witness :
  let k := info_v1 4294967295 0 0 0 long_name in
  let st := alloc_machine true k in
  let R := kpersona_copyin 100 kinfo_uninit st in
  umem st !! 100 = Some (cell (UInfo k)) /\
  persona_info_version k = PERSONA_INFO_V1 /\
  (MAXLOGNAME < length (cstring (persona_name k)))%nat /\
  length (cstring (persona_name (snd (fst R)))) = MAXLOGNAME.
Proof.
  assert (MAXLOGNAME <
          length (cstring (persona_name (info_v1 4294967295 0 0 0 long_name))))%nat
    as Hlong by (vm_compute; lia).
  split; [reflexivity|]. split; [reflexivity|]. split; [exact Hlong|].
  apply (copyin_truncates_long_name (H := xnu_consts)
           (alloc_machine true (info_v1 4294967295 0 0 0 long_name))
           100 kinfo_uninit (info_v1 4294967295 0 0 0 long_name) true
           eq_refl eq_refl).
  exact Hlong.
Defined.

(** * Further properties of the handlers *)

Section TransferHelpers.
Context `{PersonaConsts}.

(** X2: [kpersona_copyout] tests the version of the record the caller has
    at [infop], never the version of the record it stores.  It succeeds
    exactly when the caller's record is writable and of the supported
    version; it then stores [kinfo], whatever its version, and logs one
    copy-out.  It fails with [EINVAL] exactly when the version word at
    [infop] is readable and is another version; a failure leaves the
    caller's memory as it was, and no outcome touches the table. *)
Theorem kpersona_copyout_checks_the_callers_version st kinfo infop :
  let R := kpersona_copyout kinfo infop st in
  (fst R = None <->
     exists k0, umem st !! infop = Some (mk_ucell (UInfo k0) true) /\
                persona_info_version k0 = PERSONA_INFO_V1) /\
  (fst R = Some EINVAL <->
     exists v, u32_at (umem st) infop = Some v /\ v <> PERSONA_INFO_V1) /\
  (fst R = None \/ fst R = Some EINVAL \/ fst R = Some EFAULT) /\
  (fst R = None ->
     snd R = set_umem (<[infop := mk_ucell (UInfo kinfo) true]> (umem st))
               (log (EvCopyout infop (UInfo kinfo) true) st)) /\
  (fst R <> None -> umem (snd R) = umem st) /\
  table (snd R) = table st.
Proof.
  intros R. subst R.
  unfold kpersona_copyout, copyin_u32, copyout, u32_at, can_write. run_m.
  destruct (umem st !! infop) as [[[k0|v0|n] w]|] eqn:Hm; simpl.
  1: destruct (Z.eqb_spec (persona_info_version k0) PERSONA_INFO_V1);
       simpl; rewrite ?Hm; simpl; [destruct w; simpl|].
  4: destruct (Z.eqb_spec v0 PERSONA_INFO_V1);
       simpl; rewrite ?Hm; simpl; rewrite ?andb_false_r.
  all: repeat split; intros; try done; eauto.
  all: try by (destruct_and?; repeat match goal with
                 | Hx : exists _, _ |- _ => destruct Hx as (? & ? & ?)
                 end; congruence).
Qed.

Lemma kpersona_copyout_run st kinfo infop :
  kpersona_copyout kinfo infop st =
    match u32_at (umem st) infop with
    | Some v =>
        if v =? PERSONA_INFO_V1 then copyout (UInfo kinfo) infop st
        else (Some EINVAL, st)
    | None => (Some EFAULT, st)
    end.
Proof.
  unfold kpersona_copyout, copyin_u32. run_m.
  destruct (u32_at (umem st) infop) as [v|]; simpl; [|done].
  by destruct (v =? PERSONA_INFO_V1).
Qed.

(** X3: a record that [kpersona_copyout] has stored is read back by
    [kpersona_copyin] from the same address: unchanged but for the forced
    terminator of the name when its version is the supported one, and
    refused with [EINVAL] otherwise; the copy-out does not look at the
    version it stores. *)
Theorem copied_out_record_reads_back_only_with_the_supported_version
  st kinfo infop k0 :
  let R := kpersona_copyout kinfo infop st in
  fst R = None ->
  kpersona_copyin infop k0 (snd R) =
    if persona_info_version kinfo =? PERSONA_INFO_V1
    then (None,
          set_persona_name (<[MAXLOGNAME := nul]> (persona_name kinfo)) kinfo,
          snd R)
    else (Some EINVAL, k0, snd R).
Proof.
  intros R. subst R. rewrite kpersona_copyout_run.
  destruct (u32_at (umem st) infop) as [v|]; [|done].
  destruct (v =? PERSONA_INFO_V1); [|done].
  rewrite copyout_run. destruct (can_write _ _ _); [|done]. simpl. intros _.
  destruct (Z.eqb_spec (persona_info_version kinfo) PERSONA_INFO_V1) as [Hv|Hv].
  - apply (kpersona_copyin_ok _ _ _ _ true); [|done].
    simpl. by rewrite lookup_insert_eq.
  - apply (kpersona_copyin_bad_version _ _ _ (persona_info_version kinfo));
      [|done].
    unfold u32_at. simpl. by rewrite lookup_insert_eq.
Qed.

(** X1: [kpersona_copyin] only reads: it leaves the state as it was,
    whatever the outcome.  It succeeds exactly when a record of the
    supported version is mapped at [infop] (writable or not), it fails only
    with [EINVAL] or [EFAULT], and when the version word is unreadable or
    is not the supported one the kernel's record is returned as it was
    passed in. *)
Theorem kpersona_copyin_only_reads st infop k0 :
  let R := kpersona_copyin infop k0 st in
  snd R = st /\
  (fst (fst R) = None <->
     exists k w, umem st !! infop = Some (mk_ucell (UInfo k) w) /\
                 persona_info_version k = PERSONA_INFO_V1) /\
  (fst (fst R) = None \/ fst (fst R) = Some EINVAL \/
   fst (fst R) = Some EFAULT) /\
  (u32_at (umem st) infop <> Some PERSONA_INFO_V1 -> snd (fst R) = k0).
Proof.
  intros R. subst R.
  unfold kpersona_copyin, copyin_u32, copyin_info, u32_at. run_m.
  destruct (umem st !! infop) as [[[k|v|n] w]|] eqn:Hm; simpl.
  1: destruct (Z.eqb_spec (persona_info_version k) PERSONA_INFO_V1);
       simpl; rewrite ?Hm; simpl.
  3: destruct (Z.eqb_spec v PERSONA_INFO_V1); simpl; rewrite ?Hm; simpl.
  all: repeat split; intros; try done; eauto.
  all: try by (destruct_and?; repeat match goal with
                 | Hx : exists _, _ |- _ => destruct Hx as (? & ? & ? & ?)
                 end; congruence).
Qed.

End TransferHelpers.

(** ** Privilege *)

Lemma ignores_ret {A} (a : A) : ignores_privilege (ret a).
Proof. done. Qed.

Lemma ignores_bind {A B} (c : M A) (k : A -> M B) :
  ignores_privilege c -> (forall a, ignores_privilege (k a)) ->
  ignores_privilege (bind c k).
Proof.
  intros Hc Hk b st. unfold bind. rewrite Hc.
  destruct (c st) as [a st1]. simpl. apply Hk.
Qed.

Lemma ignores_gets {A} (f : kstate -> A) :
  (forall b st, f (set_issuser b st) = f st) -> ignores_privilege (gets f).
Proof. intros Hf b st. unfold gets. simpl. by rewrite Hf. Qed.

Lemma ignores_modify (g : kstate -> kstate) :
  (forall b st, g (set_issuser b st) = set_issuser b (g st)) ->
  ignores_privilege (modify g).
Proof. intros Hg b st. unfold modify. simpl. by rewrite Hg. Qed.

Create HintDb privilege.

(** Goes through a computation that never asks for the privilege. *)
Ltac privilege :=
  repeat first
    [ solve [auto 1 with privilege]
    | apply ignores_ret
    | apply ignores_bind; [|intros ?]
    | apply ignores_gets; reflexivity
    | apply ignores_modify; reflexivity
    | match goal with
      | |- ignores_privilege (let '(_, _) := ?p in _) => destruct p
      | |- ignores_privilege (if ?b then _ else _) => destruct b
      | |- ignores_privilege (match ?o with Some _ => _ | None => _ end) =>
          destruct o
      | |- ignores_privilege (match ?u with UInfo _ => _ | _ => _ end) =>
          destruct u
      | |- ignores_privilege (match ?c with mk_ucell _ _ => _ end) =>
          destruct c
      end ].

Section Privilege.
Context `{PersonaConsts}.

Lemma ignores_copyin_u32 a d : ignores_privilege (copyin_u32 a d).
Proof. unfold copyin_u32. privilege. Qed.

Lemma ignores_copyin_size a d : ignores_privilege (copyin_size a d).
Proof. unfold copyin_size. privilege. Qed.

Lemma ignores_copyin_info a d : ignores_privilege (copyin_info a d).
Proof. unfold copyin_info. privilege. Qed.

Lemma ignores_copyout v a : ignores_privilege (copyout v a).
Proof. unfold copyout. privilege. Qed.

Lemma ignores_persona_put p : ignores_privilege (persona_put p).
Proof. unfold persona_put, update_table. destruct p; privilege. Qed.

Lemma ignores_proc_get pid : ignores_privilege (proc_get pid).
Proof. unfold proc_get, update_table. privilege. Qed.

Lemma ignores_persona_lookup id : ignores_privilege (persona_lookup id).
Proof. unfold persona_lookup, update_table. privilege. Qed.

Lemma ignores_get_refs ids : ignores_privilege (get_refs ids).
Proof.
  induction ids as [|id ids IH]; simpl; unfold update_table; privilege.
Qed.

Lemma ignores_deref p : ignores_privilege (deref p).
Proof. unfold deref. privilege. Qed.

#[local] Hint Resolve ignores_copyin_u32 ignores_copyin_size
  ignores_copyin_info ignores_copyout ignores_persona_put ignores_proc_get
  ignores_persona_lookup ignores_get_refs ignores_deref : privilege.

Lemma ignores_kpersona_copyin infop k :
  ignores_privilege (kpersona_copyin infop k).
Proof. unfold kpersona_copyin. privilege. Qed.

Lemma ignores_kpersona_copyout k infop :
  ignores_privilege (kpersona_copyout k infop).
Proof. unfold kpersona_copyout. privilege. Qed.

Lemma ignores_persona_find login id limit :
  ignores_privilege (persona_find login id limit).
Proof. unfold persona_find. privilege. Qed.

Lemma ignores_copyout_ids arr idp u n : forall i error,
  ignores_privilege (copyout_ids arr idp u i n error).
Proof.
  induction n as [|n IH]; intros i error; simpl; privilege.
Qed.

Lemma ignores_put_all arr n : forall i, ignores_privilege (put_all arr i n).
Proof. induction n as [|n IH]; intros i; simpl; privilege. Qed.

#[local] Hint Resolve ignores_kpersona_copyin ignores_kpersona_copyout
  ignores_persona_find ignores_copyout_ids ignores_put_all : privilege.

Lemma ignores_find_out persona u k idlenp error :
  ignores_privilege (find_out persona u k idlenp error).
Proof. unfold find_out. privilege. Qed.

#[local] Hint Resolve ignores_find_out : privilege.

Lemma ignores_get idp : ignores_privilege (kpersona_get_syscall idp).
Proof. unfold kpersona_get_syscall, current_persona_get. privilege. Qed.

Lemma ignores_info idp infop :
  ignores_privilege (kpersona_info_syscall idp infop).
Proof. unfold kpersona_info_syscall. privilege. Qed.

Lemma ignores_find infop idp idlenp :
  ignores_privilege (kpersona_find_syscall infop idp idlenp).
Proof.
  unfold kpersona_find_syscall, MALLOC, call_persona_find. privilege.
Qed.

Lemma pidinfo_run st idp infop :
  kpersona_pidinfo_syscall idp infop st =
    match u32_at (umem st) idp with
    | None => (Some EFAULT, st)
    | Some pid =>
        if negb (issuser st) && negb (pid =? curpid st) then (Some EPERM, st)
        else (do persona <- persona_proc_get pid ;
              match persona with
              | None => ret (Some ESRCH)
              | Some p =>
                  do e <- deref p ;
                  let kinfo := kinfo_snapshot p e in
                  run persona_put persona ;
                  kpersona_copyout kinfo infop
              end) st
    end.
Proof.
  unfold kpersona_pidinfo_syscall, copyin_u32, bind, gets, ret. simpl.
  destruct (u32_at (umem st) idp) as [pid|]; simpl; [|done].
  by destruct (negb (issuser st) && negb (pid =? curpid st)).
Qed.

Lemma pidinfo_ignores_privilege_of_self st idp infop b :
  u32_at (umem st) idp = Some (curpid st) ->
  kpersona_pidinfo_syscall idp infop (set_issuser b st) =
    (fst (kpersona_pidinfo_syscall idp infop st),
     set_issuser b (snd (kpersona_pidinfo_syscall idp infop st))).
Proof.
  intros Hpid. rewrite !pidinfo_run. simpl. rewrite Hpid.
  rewrite Z.eqb_refl, !andb_false_r.
  assert (forall pid, ignores_privilege
            (do persona <- persona_proc_get pid ;
             match persona with
             | None => ret (Some ESRCH)
             | Some p =>
                 do e <- deref p ;
                 let kinfo := kinfo_snapshot p e in
                 run persona_put persona ;
                 kpersona_copyout kinfo infop
             end)) as Hrest.
  { intros pid. unfold persona_proc_get. privilege. }
  apply Hrest.
Qed.

End Privilege.

Section PrivilegeTheorems.
Context `{PersonaConsts}.

(** X21: only Allocate, Deallocate and the query by owner look at the
    caller's privilege.  For every other operation code (Get-Current, the
    query by id, the search, an unknown code) the outcome and the final
    state are the same for a privileged and an unprivileged caller. *)
Theorem unchecked_operations_ignore_privilege pargs b st :
  checks_privilege (pargs_operation pargs) = false ->
  let R := sys_persona pargs st in
  sys_persona pargs (set_issuser b st) = (fst R, set_issuser b (snd R)).
Proof.
  intros Hop R. subst R. unfold sys_persona.
  destruct (pargs_operation pargs); try discriminate Hop.
  - apply ignores_get.
  - apply ignores_info.
  - apply ignores_find.
  - done.
Qed.

(** X15: a query by owner about the caller's own pid does not depend on
    the caller's privilege: the outcome and the final state are the same
    for a privileged and an unprivileged caller. *)
Theorem pidinfo_of_own_pid_ignores_privilege st idp infop b :
  u32_at (umem st) idp = Some (curpid st) ->
  let R := kpersona_pidinfo_syscall idp infop st in
  kpersona_pidinfo_syscall idp infop (set_issuser b st) =
    (fst R, set_issuser b (snd R)).
Proof. intros Hpid R. subst R. by apply pidinfo_ignores_privilege_of_self. Qed.

End PrivilegeTheorems.

Section Get.
Context `{PersonaConsts}.

(** X8: Get-Current releases every reference it takes, also when the
    copy-out of the id fails.  It fails with [ESRCH] exactly when the
    caller has adopted no persona, and then writes nothing and takes no
    reference; otherwise it takes one reference, hands the id of the
    adopted persona to [copyout] at [idp], releases the reference, and
    returns the outcome of the copy-out. *)
Theorem get_releases_the_reference_it_takes st idp :
  let R := kpersona_get_syscall idp st in
  let evs := new_events st (snd R) in
  released evs = acquired evs /\
  (fst R = Some ESRCH <-> adopted (curpid st) st = None) /\
  (fst R = Some ESRCH -> umem (snd R) = umem st /\ acquired evs = [] /\
     id_copyouts evs = []) /\
  (forall p, adopted (curpid st) st = Some p ->
     let ok := can_write (umem st) idp (U32 p) in
     evs = [EvCurrentGet; EvGet p; EvCopyout idp (U32 p) ok; EvPut p] /\
     fst R = (if ok then None else Some EFAULT) /\
     umem (snd R) =
       if ok then <[idp := mk_ucell (U32 p) true]> (umem st) else umem st).
Proof.
  intros R evs. subst R evs.
  unfold kpersona_get_syscall, current_persona_get, proc_get, adopted,
    persona_put, copyout.
  run_m.
  repeat split_path; events; repeat split; intros; simplify_eq;
    use_tests; done.
Qed.

End Get.

Lemma set_table_same st : set_table (table st) st = st.
Proof. by destruct st. Qed.

Section Info.
Context `{PersonaConsts}.

Lemma info_run st idp infop :
  kpersona_info_syscall idp infop st =
    match u32_at (umem st) idp with
    | None => (Some EFAULT, st)
    | Some id =>
        match table st !! id with
        | Some e =>
            if pna_valid e then
              kpersona_copyout (kinfo_snapshot id e) infop
                (log (EvPut id) (log (EvGet id) (log (EvLookup id) st)))
            else (Some ESRCH, log (EvLookup id) st)
        | None => (Some ESRCH, log (EvLookup id) st)
        end
    end.
Proof.
  unfold kpersona_info_syscall, copyin_u32, persona_lookup, persona_active,
    deref, persona_put.
  run_m.
  destruct (u32_at (umem st) idp) as [id|]; simpl; [|done].
  destruct (table st !! id) as [e|] eqn:He; simpl; [|done].
  destruct (pna_valid e) eqn:Hv; simpl; [|done].
  rewrite lookup_alter_eq, He. simpl.
  rewrite put_entry_get_ref by (unfold persona_active; by rewrite He).
  by destruct st.
Qed.

Lemma snapshot_ngroups p e :
  persona_ngroups (kinfo_snapshot p e) =
    N.of_nat (min NGROUPS (length (pna_groups e))) /\
  take (N.to_nat (persona_ngroups (kinfo_snapshot p e)))
       (persona_groups (kinfo_snapshot p e)) = take NGROUPS (pna_groups e) /\
  length (persona_groups (kinfo_snapshot p e)) = NGROUPS.
Proof.
  unfold kinfo_snapshot, persona_get_groups. simpl.
  rewrite length_take. split; [done|]. split.
  - rewrite Nat2N.id, take_app_le by (rewrite length_take; lia).
    rewrite take_take.
    destruct (le_lt_dec NGROUPS (length (pna_groups e))).
    + f_equal. lia.
    + by rewrite !take_ge by lia.
  - rewrite length_app, repeat_length, length_take. lia.
Qed.

Lemma repeat_lookup {A} (x : A) n : forall i,
  (i < n)%nat -> repeat x n !! i = Some x.
Proof.
  induction n as [|n IH]; intros [|i] Hi; simpl; try lia; [done|].
  apply IH. lia.
Qed.

Lemma cstring_no_nul s : Forall (fun c => Ascii.eqb c nul = false) (cstring s).
Proof.
  induction s as [|c s IH]; simpl; [done|].
  destruct (Ascii.eqb c nul) eqn:Hc; [done|]. by constructor.
Qed.

Lemma cstring_padded s n :
  Forall (fun c => Ascii.eqb c nul = false) s ->
  cstring (s ++ repeat nul n) = s.
Proof.
  induction 1 as [|c s Hc Hs IH]; simpl.
  - by destruct n.
  - by rewrite Hc, IH.
Qed.

Lemma snapshot_name p e :
  cstring (persona_name (kinfo_snapshot p e)) =
    take MAXLOGNAME (cstring (pna_login e)) /\
  length (persona_name (kinfo_snapshot p e)) = S MAXLOGNAME /\
  <[MAXLOGNAME := nul]> (persona_name (kinfo_snapshot p e)) =
    persona_name (kinfo_snapshot p e).
Proof.
  unfold kinfo_snapshot, persona_get_groups. simpl.
  set (login := take MAXLOGNAME (cstring (pna_login e))).
  assert (length login <= MAXLOGNAME)%nat as Hlen
    by (unfold login; rewrite length_take; lia).
  split.
  { apply cstring_padded. unfold login.
    apply Forall_take, cstring_no_nul. }
  split.
  { rewrite length_app, repeat_length. lia. }
  apply list_insert_id. rewrite lookup_app_r by lia.
  apply repeat_lookup. lia.
Qed.

End Info.

Section InfoTheorems.
Context `{PersonaConsts}.

(** X9: a query by id of a valid entry, into a writable record of the
    supported version, succeeds and stores the snapshot of the entry: the
    supported version, the id asked for, the type, primary group and
    resolution identity of the entry, at most [NGROUPS] of its groups with
    their count in an array of [NGROUPS], and its login cut to [MAXLOGNAME]
    characters in an array of [MAXLOGNAME + 1].  The reference of the
    lookup is released before the record is copied out, and the table is
    left as it was. *)
Theorem info_reports_a_snapshot_of_the_entry st idp infop id e k0 :
  u32_at (umem st) idp = Some id ->
  table st !! id = Some e ->
  pna_valid e = true ->
  umem st !! infop = Some (mk_ucell (UInfo k0) true) ->
  persona_info_version k0 = PERSONA_INFO_V1 ->
  let R := kpersona_info_syscall idp infop st in
  let k := kinfo_snapshot id e in
  fst R = None /\
  umem (snd R) = <[infop := mk_ucell (UInfo k) true]> (umem st) /\
  table (snd R) = table st /\
  new_events st (snd R) =
    [EvLookup id; EvGet id; EvPut id; EvCopyout infop (UInfo k) true] /\
  persona_info_version k = PERSONA_INFO_V1 /\
  persona_id k = id /\
  persona_type k = pna_type e /\
  persona_gid k = pna_gid e /\
  persona_gmuid k = pna_gmuid e /\
  persona_ngroups k = N.of_nat (min NGROUPS (length (pna_groups e))) /\
  take (N.to_nat (persona_ngroups k)) (persona_groups k) =
    take NGROUPS (pna_groups e) /\
  length (persona_groups k) = NGROUPS /\
  cstring (persona_name k) = take MAXLOGNAME (cstring (pna_login e)) /\
  length (persona_name k) = S MAXLOGNAME.
Proof.
  intros Hid He Hv Hm Hk0 R k. subst R.
  rewrite info_run, Hid, He, Hv, kpersona_copyout_run.
  unfold u32_at. simpl. rewrite Hm, Hk0, Z.eqb_refl, copyout_run.
  unfold can_write. simpl. rewrite Hm. simpl.
  split; [done|]. split; [done|]. split; [done|].
  split; [by events|].
  destruct (snapshot_ngroups id e) as (Hn & Hg & Hl).
  destruct (snapshot_name id e) as (Hc & Hlen & _).
  repeat split; done.
Qed.

(** X11: the record a successful query by id has stored is accepted by
    [kpersona_copyin] as it is: the name of the snapshot is terminated
    within its array (the terminator [kpersona_copyin] forces is already
    there). *)
Theorem info_record_is_accepted_unchanged_by_copyin st idp infop k0 :
  let R := kpersona_info_syscall idp infop st in
  fst R = None ->
  exists id e,
    u32_at (umem st) idp = Some id /\ table st !! id = Some e /\
    kpersona_copyin infop k0 (snd R) = (None, kinfo_snapshot id e, snd R).
Proof.
  intros R. subst R. rewrite info_run.
  destruct (u32_at (umem st) idp) as [id|]; [|done].
  destruct (table st !! id) as [e|] eqn:He; [|done].
  destruct (pna_valid e); [|done].
  rewrite kpersona_copyout_run.
  destruct (u32_at _ infop) as [v|]; [|done].
  destruct (v =? PERSONA_INFO_V1); [|done].
  rewrite copyout_run. destruct (can_write _ _ _); simpl; [|done]. intros _.
  exists id, e. split; [done|]. split; [done|].
  rewrite (kpersona_copyin_ok _ _ _ (kinfo_snapshot id e) true).
  - destruct (snapshot_name id e) as (_ & _ & ->).
    by destruct (kinfo_snapshot id e).
  - simpl. by rewrite lookup_insert_eq.
  - done.
Qed.

(** X10: a query by id leaves the table as it was and releases every
    reference it takes, whatever its outcome.  It fails with [ESRCH]
    exactly when the id is readable and no persona with that id is active,
    and then writes nothing; it never writes outside the record at
    [infop]. *)
Theorem info_never_changes_the_registry st idp infop :
  let R := kpersona_info_syscall idp infop st in
  let evs := new_events st (snd R) in
  table (snd R) = table st /\
  released evs = acquired evs /\
  (fst R = Some ESRCH <->
     exists id, u32_at (umem st) idp = Some id /\
                persona_active id (table st) = false) /\
  (fst R = Some ESRCH -> umem (snd R) = umem st /\ acquired evs = []) /\
  (forall a, a <> infop -> umem (snd R) !! a = umem st !! a).
Proof.
  intros R evs. subst R evs. rewrite info_run. unfold persona_active.
  destruct (u32_at (umem st) idp) as [id|]; simpl.
  2: { rewrite new_events_same. repeat split; try done.
       by intros (id & ? & _). }
  destruct (table st !! id) as [e|] eqn:He; simpl.
  2: { events. repeat split; try done. intros _. exists id. by rewrite He. }
  destruct (pna_valid e) eqn:Hv; simpl.
  2: { events. repeat split; try done. intros _. exists id. by rewrite He. }
  rewrite kpersona_copyout_run. simpl.
  assert (forall P : Prop,
            (exists id0, Some id = Some id0 /\
               match table st !! id0 with
               | Some e0 => pna_valid e0
               | None => false
               end = false) -> P) as Hno.
  { intros P (id0 & Heq & Hact). simplify_eq. rewrite He in Hact. congruence. }
  destruct (u32_at (umem st) infop) as [v|]; simpl.
  2: { events. repeat split; try done. apply Hno. }
  destruct (v =? PERSONA_INFO_V1); simpl.
  2: { events. repeat split; try done. apply Hno. }
  rewrite copyout_run. simpl.
  destruct (can_write (umem st) infop _); simpl; events.
  - repeat split; try done; [apply Hno|].
    intros a Ha. by rewrite lookup_insert_ne.
  - repeat split; try done. apply Hno.
Qed.

End InfoTheorems.

(** ** Entries that survive a release *)

Lemma put_entry_get_ref_live id (tbl : gmap Z persona) :
  (forall e, tbl !! id = Some e -> entry_live e = true) ->
  put_entry id (alter persona_get_ref id tbl) = tbl.
Proof.
  unfold put_entry. intros Hl. rewrite lookup_alter_eq.
  destruct (tbl !! id) as [e|] eqn:He; simpl.
  2: { apply map_eq. intros k. destruct (decide (k = id)) as [->|Hne].
       - by rewrite lookup_alter_eq, He.
       - by rewrite lookup_alter_ne. }
  specialize (Hl e eq_refl). unfold entry_live in Hl.
  assert (alter (with_refcount (pna_refcount e)) id
            (alter persona_get_ref id tbl) = tbl) as Hsame.
  { apply map_eq. intros k. destruct (decide (k = id)) as [->|Hne].
    - rewrite !lookup_alter_eq, He. simpl. by destruct e.
    - by rewrite !lookup_alter_ne. }
  destruct (pna_valid e); simpl in *; [by rewrite andb_false_r|].
  destruct (pna_refcount e); [done|]. simpl. exact Hsame.
Qed.

Section Pidinfo.
Context `{PersonaConsts}.

Lemma pidinfo_found_run st idp infop pid p e :
  u32_at (umem st) idp = Some pid ->
  issuser st = true \/ pid = curpid st ->
  proc_persona st !! pid = Some p ->
  table st !! p = Some e ->
  kpersona_pidinfo_syscall idp infop st =
    kpersona_copyout (kinfo_snapshot p e) infop
      (set_table (put_entry p (alter persona_get_ref p (table st)))
         (log (EvPut p) (log (EvGet p) (log (EvProcGet pid) st)))).
Proof.
  intros Hpid Hmay Hp He. rewrite pidinfo_run, Hpid.
  assert (negb (issuser st) && negb (pid =? curpid st) = false) as ->.
  { destruct Hmay as [->| ->]; [done|]. by rewrite Z.eqb_refl, andb_false_r. }
  unfold persona_proc_get, proc_get, deref, persona_put. run_m.
  rewrite Hp, He. simpl. rewrite lookup_alter_eq, He. simpl.
  by destruct e.
Qed.

(** X13: a query by owner that is allowed (a privileged caller, or the
    owner itself) and whose process has adopted a live persona stores the
    snapshot of that persona into a writable record of the supported
    version, releases its reference before the copy-out and leaves the
    table as it was.  For the caller's own pid the id it reports is the id
    that Get-Current hands to [copyout]. *)
Theorem pidinfo_reports_the_persona_of_the_process
  st idp infop pid p e k0 :
  u32_at (umem st) idp = Some pid ->
  issuser st = true \/ pid = curpid st ->
  proc_persona st !! pid = Some p ->
  table st !! p = Some e ->
  entry_live e = true ->
  umem st !! infop = Some (mk_ucell (UInfo k0) true) ->
  persona_info_version k0 = PERSONA_INFO_V1 ->
  let R := kpersona_pidinfo_syscall idp infop st in
  let k := kinfo_snapshot p e in
  fst R = None /\
  umem (snd R) = <[infop := mk_ucell (UInfo k) true]> (umem st) /\
  table (snd R) = table st /\
  new_events st (snd R) =
    [EvProcGet pid; EvGet p; EvPut p; EvCopyout infop (UInfo k) true] /\
  persona_id k = p /\
  (pid = curpid st ->
   forall idp',
     id_copyouts (new_events st (snd (kpersona_get_syscall idp' st))) =
       [(idp', p, can_write (umem st) idp' (U32 p))]).
Proof.
  intros Hpid Hmay Hp He Hlive Hm Hk0 R k. subst R k.
  rewrite (pidinfo_found_run _ _ _ _ _ _ Hpid Hmay Hp He).
  rewrite put_entry_get_ref_live by (intros e' He'; congruence).
  rewrite kpersona_copyout_run. unfold u32_at. simpl.
  rewrite Hm, Hk0, Z.eqb_refl, copyout_run.
  unfold can_write. simpl. rewrite Hm. simpl.
  split; [done|]. split; [done|]. split; [done|].
  split; [by events|].
  split; [done|].
  intros -> idp'.
  unfold kpersona_get_syscall, current_persona_get, proc_get, persona_put,
    copyout.
  run_m. rewrite Hp, He. simpl.
  destruct (can_write (umem st) idp' (U32 p)) eqn:Hw; simpl; events;
    unfold can_write in Hw; by rewrite Hw.
Qed.

End Pidinfo.

Section AllocSuccess.
Context `{PersonaConsts}.


End AllocSuccess.

(** ** What a handler leaves alone *)

Lemma preserves_ret {A B} (f : kstate -> B) (a : A) : preserves f (ret a).
Proof. done. Qed.

Lemma preserves_bind {A B C} (f : kstate -> C) (c : M A) (k : A -> M B) :
  preserves f c -> (forall a, preserves f (k a)) -> preserves f (bind c k).
Proof.
  intros Hc Hk st. unfold bind. specialize (Hc st).
  destruct (c st) as [a st1]. simpl in Hc. by rewrite Hk.
Qed.

Lemma preserves_gets {A B} (f : kstate -> B) (g : kstate -> A) :
  preserves f (gets g).
Proof. done. Qed.

Lemma preserves_modify {B} (f : kstate -> B) (g : kstate -> kstate) :
  (forall st, f (g st) = f st) -> preserves f (modify g).
Proof. intros Hg st. apply Hg. Qed.

Create HintDb preserves.

(** Goes through a computation whose steps each leave the reading alone. *)
Ltac preserved :=
  repeat first
    [ solve [auto 2 with preserves]
    | apply preserves_ret
    | apply preserves_bind; [|intros ?]
    | apply preserves_gets
    | apply preserves_modify; reflexivity
    | match goal with
      | |- preserves _ (let '(_, _) := ?p in _) => destruct p
      | |- preserves _ (if ?b then _ else _) => destruct b
      | |- preserves _ (match ?o with Some _ => _ | None => _ end) =>
          destruct o
      | |- preserves _ (match ?u with UInfo _ => _ | _ => _ end) =>
          destruct u
      | |- preserves _ (match ?c with mk_ucell _ _ => _ end) =>
          destruct c
      end ].

Section Preserved.
Context `{PersonaConsts}.

(** *** The caller's address space, away from the buffers of the call *)

Lemma copyout_elsewhere v addr a :
  a <> addr -> preserves (fun st => umem st !! a) (copyout v addr).
Proof.
  intros Hne st. rewrite copyout_run.
  destruct (can_write _ _ _); simpl; [|done]. by rewrite lookup_insert_ne.
Qed.

#[local] Hint Resolve copyout_elsewhere : preserves.

Lemma get_refs_elsewhere a ids :
  preserves (fun st => umem st !! a) (get_refs ids).
Proof. intros st. by rewrite get_refs_frame. Qed.

Lemma put_all_elsewhere a arr n i :
  preserves (fun st => umem st !! a) (put_all arr i n).
Proof. intros st. by rewrite put_all_frame. Qed.

Lemma copyout_ids_elsewhere a arr idp u n : forall i error,
  (forall j : nat, a <> idp + Z.of_nat j * 4) ->
  preserves (fun st => umem st !! a) (copyout_ids arr idp u i n error).
Proof.
  induction n as [|n IH]; intros i error Ha; cbn [copyout_ids]; preserved.
Qed.

#[local] Hint Resolve get_refs_elsewhere put_all_elsewhere
  copyout_ids_elsewhere : preserves.

Lemma alloc_elsewhere a infop idp :
  a <> idp -> a <> infop ->
  preserves (fun st => umem st !! a) (kpersona_alloc_syscall infop idp).
Proof.
  intros Hid Hinfo.
  unfold kpersona_alloc_syscall, kpersona_copyin, kpersona_copyout,
    copyin_u32, copyin_info, persona_alloc, persona_set_gid,
    persona_set_groups, alloc_out_error, persona_put, update_table.
  preserved.
Qed.

Lemma dealloc_writes_nothing idp :
  preserves umem (kpersona_dealloc_syscall idp).
Proof.
  unfold kpersona_dealloc_syscall, copyin_u32,
    persona_lookup_and_invalidate, persona_put, update_table.
  preserved.
Qed.

Lemma get_elsewhere a idp :
  a <> idp -> preserves (fun st => umem st !! a) (kpersona_get_syscall idp).
Proof.
  intros Hid.
  unfold kpersona_get_syscall, current_persona_get, proc_get, persona_put,
    update_table.
  preserved.
Qed.

Lemma info_elsewhere a idp infop :
  a <> infop ->
  preserves (fun st => umem st !! a) (kpersona_info_syscall idp infop).
Proof.
  intros Hinfo.
  unfold kpersona_info_syscall, kpersona_copyout, copyin_u32,
    persona_lookup, deref, persona_put, update_table.
  preserved.
Qed.

Lemma pidinfo_elsewhere a idp infop :
  a <> infop ->
  preserves (fun st => umem st !! a) (kpersona_pidinfo_syscall idp infop).
Proof.
  intros Hinfo.
  unfold kpersona_pidinfo_syscall, kpersona_copyout, copyin_u32,
    persona_proc_get, proc_get, deref, persona_put, update_table.
  preserved.
Qed.

Lemma find_elsewhere a infop idp idlenp :
  a <> idlenp -> (forall j : nat, a <> idp + Z.of_nat j * 4) ->
  preserves (fun st => umem st !! a) (kpersona_find_syscall infop idp idlenp).
Proof.
  intros Hlen Hid.
  unfold kpersona_find_syscall, kpersona_copyin, copyin_size, copyin_u32,
    copyin_info, MALLOC, call_persona_find, persona_find, find_out,
    update_table.
  preserved.
Qed.

(** X22: a call of [persona] writes to the caller's memory only where its
    operation may store: every other address holds after the call what it
    held before.  Deallocate and an unknown operation write nowhere, and a
    search writes only to the count and to slots of the id array. *)
Theorem persona_writes_only_to_its_buffers pargs st a :
  ~ may_write pargs a ->
  umem (snd (sys_persona pargs st)) !! a = umem st !! a.
Proof.
  unfold may_write, sys_persona. intros Hno.
  destruct (pargs_operation pargs).
  - apply alloc_elsewhere; intros ->; apply Hno; auto.
  - by rewrite dealloc_writes_nothing.
  - apply get_elsewhere. intros ->. by apply Hno.
  - apply info_elsewhere. intros ->. by apply Hno.
  - apply pidinfo_elsewhere. intros ->. by apply Hno.
  - apply find_elsewhere.
    + intros ->. apply Hno. by left.
    + intros j ->. apply Hno. right. by exists j.
  - done.
Qed.

End Preserved.

Section AllocTheorems.
Context `{PersonaConsts}.





End AllocTheorems.

Section RoundTrips.
Context `{PersonaConsts}.

Lemma dealloc_keeps_privilege idp :
  preserves issuser (kpersona_dealloc_syscall idp).
Proof.
  unfold kpersona_dealloc_syscall, copyin_u32,
    persona_lookup_and_invalidate, persona_put, update_table.
  preserved.
Qed.


Lemma dealloc_unreadable st idp :
  u32_at (umem st) idp = None ->
  kpersona_dealloc_syscall idp st =
    (Some (if issuser st then EFAULT else EPERM), st).
Proof.
  intros Hid. unfold kpersona_dealloc_syscall, copyin_u32. run_m.
  destruct (issuser st); simpl; [|done]. by rewrite Hid.
Qed.

(** X7: after a successful deallocation, a second deallocation of the same
    id fails with [ESRCH], releases nothing and leaves the table as the
    first one left it; neither call writes to the caller's memory. *)
Theorem dealloc_succeeds_only_once st idp :
  let R1 := kpersona_dealloc_syscall idp st in
  fst R1 = None ->
  let R2 := kpersona_dealloc_syscall idp (snd R1) in
  fst R2 = Some ESRCH /\
  table (snd R2) = table (snd R1) /\
  released (new_events (snd R1) (snd R2)) = [] /\
  umem (snd R2) = umem st.
Proof.
  intros R1 Hok R2. subst R1 R2.
  destruct (u32_at (umem st) idp) as [pid|] eqn:Hid.
  2: { rewrite (dealloc_unreadable _ _ Hid) in Hok.
       simpl in Hok. by destruct (issuser st). }
  pose proof (dealloc_run st idp pid Hid) as Hd.
  pose proof (dealloc_keeps_privilege idp st) as Hpriv.
  pose proof (dealloc_writes_nothing idp st) as Hmem.
  destruct (kpersona_dealloc_syscall idp st) as [error st1]. simpl in *.
  subst error.
  destruct (issuser st); [|by destruct Hd].
  destruct (persona_active pid (table st)); [|by destruct Hd].
  destruct Hd as (_ & _ & Hgone & _).
  rewrite <- Hmem in Hid.
  pose proof (dealloc_run st1 idp pid Hid) as Hd.
  pose proof (dealloc_writes_nothing idp st1) as Hmem2.
  destruct (kpersona_dealloc_syscall idp st1) as [error2 st2]. simpl in *.
  rewrite Hpriv, Hgone in Hd. destruct Hd as (-> & Htr & Htbl).
  split; [done|]. split; [done|].
  rewrite (new_events_app _ _ _ Htr). split; [done|]. congruence.
Qed.



End RoundTrips.

(** ** The id array of a search *)

Lemma can_write_u32 m a p q : can_write m a (U32 p) = can_write m a (U32 q).
Proof.
  unfold can_write. destruct (m !! a) as [[v wr]|]; [|done]. by destruct v.
Qed.

(** The loop stores only to the slots it is allowed to run over. *)
Lemma copyout_ids_bound arr idp u n a : forall i st error,
  (forall j : nat, (i <= j < i + n)%nat -> (N.of_nat j < u)%N ->
     a <> idp + Z.of_nat j * 4) ->
  umem (snd (copyout_ids arr idp u i n error st)) !! a = umem st !! a.
Proof.
  induction n as [|n IH]; intros i st error Ha; simpl; [done|].
  destruct (N.leb_spec u (N.of_nat i)) as [Hu|Hu]; [done|].
  destruct (arr !! i) as [[p|]|]; [|done..].
  rewrite bind_run, copyout_run.
  destruct (can_write _ _ _); simpl; [|done].
  rewrite IH by (intros j Hj Hju; apply Ha; [lia|done]).
  simpl. rewrite lookup_insert_ne; [done|].
  intros Heq. by apply (Ha i); [lia| |].
Qed.

(** With writable slots the loop stores every id it is given. *)
Lemma copyout_ids_stores ids rest idp u n : forall i st,
  (i + n <= length ids)%nat ->
  (N.of_nat (i + n) <= u)%N ->
  (forall j : nat, (i <= j < i + n)%nat ->
     can_write (umem st) (idp + Z.of_nat j * 4) (U32 0) = true) ->
  let R := copyout_ids ((Some <$> ids) ++ rest) idp u i n None st in
  fst R = None /\
  (forall (j : nat) p, (i <= j < i + n)%nat -> ids !! j = Some p ->
     umem (snd R) !! (idp + Z.of_nat j * 4) = Some (mk_ucell (U32 p) true)).
Proof.
  induction n as [|n IH]; intros i st Hlen Hu Hw; simpl.
  { split; [done|]. intros j p Hj. lia. }
  destruct (N.leb_spec u (N.of_nat i)) as [Hui|Hui]; [lia|].
  destruct (lookup_lt_is_Some_2 ids i) as [p Hp]; [lia|].
  rewrite lookup_app_l by (rewrite length_fmap; lia).
  rewrite list_lookup_fmap, Hp. simpl.
  rewrite bind_run, copyout_run.
  rewrite (can_write_u32 _ _ p 0), Hw by lia. simpl.
  set (st1 := set_umem _ _).
  destruct (IH (S i) st1) as [Hok Hst]; [lia|lia| |].
  { intros j Hj. rewrite <- (Hw j) by lia. unfold can_write, st1. simpl.
    rewrite lookup_insert_ne; [done|]. lia. }
  split; [done|]. intros j q Hj Hq.
  destruct (decide (j = i)) as [->|Hne].
  - rewrite copyout_ids_bound by (intros j' Hj' _; lia).
    unfold st1. simpl. rewrite lookup_insert_eq. congruence.
  - apply Hst; [lia|done].
Qed.

Section FindMemory.
Context `{PersonaConsts}.

(** A search that gets its buffer: the outcome is the one of the loop that
    copies the ids out, run after the registry has taken its references,
    and the count goes to [idlenp] if that is writable. *)
Lemma find_searching st infop idp idlenp n w k w' :
  umem st !! idlenp = Some (mk_ucell (USize n) w) ->
  umem st !! infop = Some (mk_ucell (UInfo k) w') ->
  persona_info_version k = PERSONA_INFO_V1 ->
  let u := if (g_max_personas st <? n)%N then g_max_personas st else n in
  u = 0%N \/ malloc_ok st = true ->
  let login :=
    login_of (set_persona_name (<[MAXLOGNAME := nul]> (persona_name k)) k) in
  let matches := find_matches login (persona_id k) (table st) in
  let found := take (N.to_nat u) matches in
  let total := N.of_nat (length matches) in
  let arr :=
    (Some <$> found) ++ drop (length found) (replicate (N.to_nat u) None) in
  exists st1,
    umem st1 = umem st /\
    let C := copyout_ids arr idp u 0 (N.to_nat total) None st1 in
    let R := kpersona_find_syscall infop idp idlenp st in
    fst R = fst C /\
    umem (snd R) =
      (if w then <[idlenp := mk_ucell (USize total) true]> (umem (snd C))
       else umem (snd C)).
Proof.
  intros Hlen Hm Hv u Hmem login matches found total arr.
  unfold kpersona_find_syscall, copyin_size, kpersona_copyin, copyin_u32,
    u32_at, copyin_info, find_out, MALLOC, call_persona_find.
  run_m. rewrite Hlen. simpl. fold u. rewrite Hm. simpl.
  rewrite Hv, Z.eqb_refl. simpl. rewrite Hm. simpl.
  set (k1 := set_persona_name _ k).
  change (persona_id k1) with (persona_id k).
  fold login matches.
  destruct (N.ltb_spec 0 u) as [Hu|Hu]; simpl.
  - destruct Hmem as [Hu0|Hmem]; [lia|]. rewrite Hmem. simpl.
    destruct (persona_find_run login (persona_id k) u st)
      as (Hpf & _ & Hm1).
    fold matches in Hpf. fold found in Hpf.
    destruct (persona_find _ _ _ st) as [[[e found'] total'] st1].
    simpl in Hpf, Hm1. injection Hpf as -> -> ->. simpl.
    exists st1. split; [done|]. fold total arr.
    pose proof (copyout_ids_frame arr idp u (N.to_nat total) idlenp
      (mk_ucell (USize n) w) 0 st1 None) as Hm2.
    rewrite Hm1 in Hm2. specialize (Hm2 Hlen eq_refl).
    destruct (copyout_ids _ _ _ _ _ _ st1) as [a1 st2]. simpl in Hm2 |- *.
    pose proof (put_all_frame arr (N.to_nat u) 0 st2) as Hm3.
    destruct (put_all _ _ _ st2) as [[] st3]. simpl in Hm3.
    rewrite copyout_run. unfold can_write. rewrite Hm3, Hm2. simpl.
    rewrite andb_true_r. destruct w; simpl; by rewrite ?Hm3.
  - assert (u = 0%N) as Hu0 by lia.
    exists (log (EvFind login (persona_id k) 0) st). split; [done|].
    subst arr found. rewrite Hu0. simpl.
    rewrite !copyout_ids_none. simpl.
    rewrite copyout_run. unfold can_write. simpl. rewrite Hlen. simpl.
    rewrite andb_true_r. by destruct w.
Qed.

End FindMemory.

(** The loop runs over no more slots than the caller's limit. *)
Lemma copyout_ids_clamp arr idp u n : forall i error st,
  copyout_ids arr idp u i n error st =
  copyout_ids arr idp u i (min n (N.to_nat u - i)) error st.
Proof.
  induction n as [|n IH]; intros i error st; [done|].
  destruct (N.leb_spec u (N.of_nat i)) as [Hu|Hu].
  - replace (N.to_nat u - i)%nat with 0%nat by lia. simpl.
    by destruct (N.leb_spec u (N.of_nat i)); [|lia].
  - destruct (N.to_nat u - i)%nat as [|d] eqn:Hd; [lia|].
    assert (d = (N.to_nat u - S i)%nat) as -> by lia.
    simpl. destruct (u <=? N.of_nat i)%N; [done|].
    destruct (arr !! i) as [[p|]|]; [|done..].
    rewrite !bind_run. destruct (failed _); [done|]. apply IH.
Qed.

Section FindTheorems.
Context `{PersonaConsts}.

(** X16: a search whose buffer is allocated and whose id slots are writable
    succeeds, whether or not the count at [idlenp] can be written: the
    failure of the last copy-out is ignored.  The j-th id found is stored
    at [idp + 4 * j]; the number of all matches replaces the limit at
    [idlenp] if that is writable, and the limit stays otherwise; nothing
    else of the caller's memory changes. *)
Theorem find_stores_the_ids_in_consecutive_slots
  st infop idp idlenp n w k w' :
  umem st !! idlenp = Some (mk_ucell (USize n) w) ->
  umem st !! infop = Some (mk_ucell (UInfo k) w') ->
  persona_info_version k = PERSONA_INFO_V1 ->
  let u := if (g_max_personas st <? n)%N then g_max_personas st else n in
  u = 0%N \/ malloc_ok st = true ->
  let login :=
    login_of (set_persona_name (<[MAXLOGNAME := nul]> (persona_name k)) k) in
  let matches := find_matches login (persona_id k) (table st) in
  let found := take (N.to_nat u) matches in
  (forall j : nat, (j < length found)%nat ->
     can_write (umem st) (idp + Z.of_nat j * 4) (U32 0) = true) ->
  let R := kpersona_find_syscall infop idp idlenp st in
  fst R = None /\
  (forall (j : nat) p, found !! j = Some p ->
     umem (snd R) !! (idp + Z.of_nat j * 4) = Some (mk_ucell (U32 p) true)) /\
  umem (snd R) !! idlenp =
    Some (if w then mk_ucell (USize (N.of_nat (length matches))) true
          else mk_ucell (USize n) false) /\
  (forall a, a <> idlenp ->
     (forall j : nat, (j < length found)%nat -> a <> idp + Z.of_nat j * 4) ->
     umem (snd R) !! a = umem st !! a).
Proof.
  intros Hlen Hm Hv u Hmem login matches found Hslots R. subst R.
  destruct (find_searching st infop idp idlenp n w k w' Hlen Hm Hv Hmem)
    as (st1 & Hm1 & Herr & Hum).
  fold u login matches found in Herr, Hum.
  rewrite Herr, Hum. clear Herr Hum.
  assert (length found = min (N.to_nat u) (length matches)) as Hlf
    by apply length_take.
  set (arr := (Some <$> found) ++ _).
  rewrite Nat2N.id, copyout_ids_clamp.
  replace (min (length matches) (N.to_nat u - 0)) with (length found) by lia.
  destruct (copyout_ids_stores found
              (drop (length found) (replicate (N.to_nat u) None))
              idp u (length found) 0 st1) as [Hok Hst]; [lia|lia| |].
  { intros j Hj. rewrite Hm1. apply Hslots. lia. }
  fold arr in Hok, Hst.
  assert (forall a,
            (forall j : nat, (j < length found)%nat ->
               a <> idp + Z.of_nat j * 4) ->
            umem (snd (copyout_ids arr idp u 0 (length found) None st1)) !! a
            = umem st !! a) as Hframe.
  { intros a Ha. rewrite copyout_ids_bound, Hm1; [done|].
    intros j Hj _. apply Ha. lia. }
  assert (forall j : nat, (j < length found)%nat ->
            idlenp <> idp + Z.of_nat j * 4) as Hne.
  { intros j Hj Heq. specialize (Hslots j Hj). unfold can_write in Hslots.
    rewrite <- Heq, Hlen in Hslots. simpl in Hslots.
    by rewrite andb_false_r in Hslots. }
  split; [done|]. split; [|split].
  - intros j p Hj.
    assert (j < length found)%nat as Hlt by (by eapply lookup_lt_Some).
    assert (umem (snd (copyout_ids arr idp u 0 (length found) None st1))
              !! (idp + Z.of_nat j * 4) = Some (mk_ucell (U32 p) true)) as Hs
      by (apply Hst; [lia|done]).
    destruct w; [|done].
    rewrite lookup_insert_ne; [done|]. by apply Hne.
  - destruct w; [by rewrite lookup_insert_eq|].
    rewrite Hframe, Hlen; [done|]. exact Hne.
  - intros a Ha Hsl. destruct w; [rewrite lookup_insert_ne by done|];
      by apply Hframe.
Qed.

Ltac elsewhere_out Ha :=
  match goal with
  | |- context [copyout ?v ?addr ?s] =>
      let Ho := fresh in
      pose proof (copyout_elsewhere v addr _ Ha s) as Ho;
      destruct (copyout v addr s) as [? ?]; simpl in Ho |- *; done
  end.

(** X17: a search never writes to a slot of the id array at or beyond the
    caller's limit clamped to [g_max_personas]: whatever the outcome, the
    caller's memory changes at most at [idlenp] and at the slots below
    that bound. *)
Theorem find_writes_no_slot_beyond_the_limit st infop idp idlenp n w a :
  umem st !! idlenp = Some (mk_ucell (USize n) w) ->
  a <> idlenp ->
  (forall j : nat, (N.of_nat j < N.min n (g_max_personas st))%N ->
     a <> idp + Z.of_nat j * 4) ->
  umem (snd (kpersona_find_syscall infop idp idlenp st)) !! a = umem st !! a.
Proof.
  intros Hlen Ha Hslots.
  unfold kpersona_find_syscall, copyin_size, kpersona_copyin, copyin_u32,
    u32_at, copyin_info, find_out, MALLOC, call_persona_find.
  run_m. rewrite Hlen. simpl.
  set (u := if (g_max_personas st <? n)%N then g_max_personas st else n).
  assert (u = N.min n (g_max_personas st)) as Hu.
  { unfold u. destruct (N.ltb_spec (g_max_personas st) n); lia. }
  destruct (umem st !! infop) as [[[k|v|] w']|] eqn:Hm; simpl.
  4: { elsewhere_out Ha. }
  3: { elsewhere_out Ha. }
  2: { destruct (v =? PERSONA_INFO_V1); simpl; rewrite ?Hm; simpl;
         elsewhere_out Ha. }
  destruct (Z.eqb_spec (persona_info_version k) PERSONA_INFO_V1) as [Hv|Hv];
    simpl.
  2: { elsewhere_out Ha. }
  rewrite Hm. simpl.
  set (k1 := set_persona_name _ k).
  change (persona_id k1) with (persona_id k).
  set (matches := find_matches (login_of k1) (persona_id k) (table st)).
  destruct (N.ltb_spec 0 u) as [Hpos|Hpos]; simpl.
  - destruct (malloc_ok st); simpl; [|elsewhere_out Ha].
    destruct (persona_find_run (login_of k1) (persona_id k) u st)
      as (Hpf & _ & Hm1).
    fold matches in Hpf.
    set (found := take (N.to_nat u) matches) in *.
    destruct (persona_find _ _ _ st) as [[[e found'] total'] st1].
    simpl in Hpf, Hm1. injection Hpf as -> -> ->. simpl.
    set (arr := (Some <$> found) ++ _).
    pose proof (copyout_ids_bound arr idp u
      (N.to_nat (N.of_nat (length matches))) a 0 st1 None) as Hm2.
    rewrite Hm1 in Hm2.
    destruct (copyout_ids _ _ _ _ _ _ st1) as [a1 st2]. simpl in Hm2.
    pose proof (put_all_frame arr (N.to_nat u) 0 st2) as Hm3.
    destruct (put_all _ _ _ st2) as [[] st3]. simpl in Hm3.
    pose proof (copyout_elsewhere
      (USize (N.of_nat (length matches))) idlenp a Ha st3) as Hm4.
    destruct (copyout _ _ st3) as [e4 st4]. simpl in Hm4 |- *.
    rewrite Hm4, Hm3. apply Hm2. intros j _ Hj. apply Hslots. lia.
  - assert (u = 0%N) as Hu0 by lia. rewrite Hu0. simpl.
    rewrite copyout_ids_none. elsewhere_out Ha.
Qed.

(** X20: whatever its outcome, a search leaves the table as it was and
    releases exactly the references it acquired, each of a distinct entry
    that was active when the search started. *)
Theorem find_never_changes_the_registry st infop idp idlenp :
  let R := kpersona_find_syscall infop idp idlenp st in
  let evs := new_events st (snd R) in
  table (snd R) = table st /\
  released evs = acquired evs /\
  NoDup (acquired evs) /\
  (forall p, p ∈ acquired evs -> persona_active p (table st) = true).
Proof.
  intros R evs. subst R evs.
  pose proof (find_readings st infop idp idlenp) as Hr.
  pose proof (find_keeps_table st infop idp idlenp) as Hkeep.
  destruct (kpersona_find_syscall infop idp idlenp st) as [error st'].
  cbv zeta in Hr. simpl in Hkeep |- *.
  split; [done|].
  destruct Hr as [(_ & -> & -> & _)|Hs].
  { split; [done|]. split; [constructor|]. intros p Hp. inversion Hp. }
  destruct Hs as (n & w & k & w' & _ & _ & _ & copied & left & _
                  & _ & _ & -> & -> & _).
  split; [done|]. split.
  - apply (sublist_NoDup _ (find_matches
      (login_of (set_persona_name (<[MAXLOGNAME := nul]> (persona_name k)) k))
      (persona_id k) (table st))).
    + apply find_matches_NoDup.
    + apply sublist_take.
  - intros p Hp.
    apply (find_matches_active
      (login_of (set_persona_name (<[MAXLOGNAME := nul]> (persona_name k)) k))
      (persona_id k)).
    by apply elem_of_take in Hp as (? & ?%list_elem_of_lookup_2 & _).
Qed.

(** X18: when a search fails before the registry is asked (the record
    cannot be read or is of another version, or [MALLOC] fails for a
    positive limit), the only thing it does is to hand the count 0 to
    [copyout] at [idlenp]: the caller's limit is overwritten by 0 if it is
    writable.  The error is [ENOMEM] exactly when the record was fine. *)
Theorem find_failure_before_the_search_zeroes_the_count
  st infop idp idlenp n w :
  umem st !! idlenp = Some (mk_ucell (USize n) w) ->
  (~ exists k w', umem st !! infop = Some (mk_ucell (UInfo k) w') /\
                  persona_info_version k = PERSONA_INFO_V1)
  \/ ((0 < N.min n (g_max_personas st))%N /\ malloc_ok st = false) ->
  let R := kpersona_find_syscall infop idp idlenp st in
  new_events st (snd R) = [EvCopyout idlenp (USize 0) w] /\
  umem (snd R) =
    (if w then <[idlenp := mk_ucell (USize 0) true]> (umem st)
     else umem st) /\
  table (snd R) = table st /\
  (fst R = Some EFAULT \/ fst R = Some EINVAL \/ fst R = Some ENOMEM) /\
  (fst R = Some ENOMEM <->
     exists k w', umem st !! infop = Some (mk_ucell (UInfo k) w') /\
                  persona_info_version k = PERSONA_INFO_V1).
Proof.
  intros Hlen Hwhy.
  assert (can_write (umem st) idlenp (USize 0) = w) as Hw.
  { unfold can_write. rewrite Hlen. simpl. by rewrite andb_true_r. }
  unfold kpersona_find_syscall, copyin_size, kpersona_copyin, copyin_u32,
    u32_at, copyin_info, find_out, MALLOC, call_persona_find.
  run_m. rewrite Hlen. simpl.
  set (u := if (g_max_personas st <? n)%N then g_max_personas st else n).
  assert (u = N.min n (g_max_personas st)) as Hu.
  { unfold u. destruct (N.ltb_spec (g_max_personas st) n); lia. }
  destruct (umem st !! infop) as [[[k|v|] w']|] eqn:Hm; simpl.
  1: destruct (Z.eqb_spec (persona_info_version k) PERSONA_INFO_V1) as [Hv|Hv];
       simpl; rewrite ?Hm; simpl.
  1: { destruct Hwhy as [Hbad|[Hpos Hmem]]; [destruct Hbad; eauto|].
       destruct (N.ltb_spec 0 u) as [_|Hle]; [|lia]. simpl.
       rewrite Hmem. simpl. rewrite copyout_run, Hw.
       destruct w; simpl; events; repeat split; eauto. }
  2: destruct (v =? PERSONA_INFO_V1); simpl; rewrite ?Hm; simpl.
  all: rewrite copyout_run, Hw; destruct w; simpl; events.
  all: repeat split; auto; try done.
  all: try by (intros (k' & w'' & Hk' & Hv'); congruence).
Qed.

(** X19: with a limit that clamps to 0 a search only counts: it asks the
    registry for no reference, allocates nothing (so does not depend on
    [MALLOC]), copies no id out, succeeds, and reports the number of all
    matches at [idlenp]. *)
Theorem find_with_limit_zero_only_counts st infop idp idlenp n w k w' :
  umem st !! idlenp = Some (mk_ucell (USize n) w) ->
  N.min n (g_max_personas st) = 0%N ->
  umem st !! infop = Some (mk_ucell (UInfo k) w') ->
  persona_info_version k = PERSONA_INFO_V1 ->
  let login :=
    login_of (set_persona_name (<[MAXLOGNAME := nul]> (persona_name k)) k) in
  let total :=
    N.of_nat (length (find_matches login (persona_id k) (table st))) in
  let R := kpersona_find_syscall infop idp idlenp st in
  fst R = None /\
  new_events st (snd R) =
    [EvFind login (persona_id k) 0; EvCopyout idlenp (USize total) w] /\
  umem (snd R) =
    (if w then <[idlenp := mk_ucell (USize total) true]> (umem st)
     else umem st) /\
  table (snd R) = table st.
Proof.
  intros Hlen Hzero Hm Hv login total.
  unfold kpersona_find_syscall, copyin_size, kpersona_copyin, copyin_u32,
    u32_at, copyin_info, find_out, MALLOC, call_persona_find.
  run_m. rewrite Hlen. simpl.
  set (u := if (g_max_personas st <? n)%N then g_max_personas st else n).
  assert (u = 0%N) as ->.
  { unfold u. destruct (N.ltb_spec (g_max_personas st) n); lia. }
  rewrite Hm. simpl. rewrite Hv, Z.eqb_refl. simpl. rewrite Hm. simpl.
  set (k1 := set_persona_name _ k).
  change (persona_id k1) with (persona_id k).
  rewrite copyout_ids_none, copyout_run. unfold can_write. simpl.
  rewrite Hlen. simpl. rewrite andb_true_r.
  destruct w; simpl; events; done.
Qed.

End FindTheorems.

(** ** The registry across a call *)

Section RegistryAcrossCalls.
Context `{PersonaConsts}.

Lemma kpersona_copyout_table st kinfo infop :
  table (snd (kpersona_copyout kinfo infop st)) = table st.
Proof.
  rewrite kpersona_copyout_run.
  destruct (u32_at (umem st) infop) as [v|]; [|done].
  destruct (v =? PERSONA_INFO_V1); [|done]. apply copyout_table.
Qed.

Lemma get_keeps_table st idp :
  entries_live (table st) ->
  table (snd (kpersona_get_syscall idp st)) = table st.
Proof.
  intros Hlive.
  unfold kpersona_get_syscall, current_persona_get, proc_get, persona_put,
    copyout.
  run_m.
  destruct (proc_persona st !! curpid st) as [p|]; simpl; [|done].
  destruct (table st !! p) as [e|] eqn:He; simpl; [|done].
  assert (put_entry p (alter persona_get_ref p (table st)) = table st) as Hp.
  { apply put_entry_get_ref_live. intros e' He'.
    by apply (Hlive p e'). }
  destruct (can_write _ _ _); simpl; exact Hp.
Qed.

Lemma info_keeps_table st idp infop :
  table (snd (kpersona_info_syscall idp infop st)) = table st.
Proof.
  rewrite info_run.
  destruct (u32_at (umem st) idp) as [id|]; [|done].
  destruct (table st !! id) as [e|]; [|done].
  destruct (pna_valid e); [|done].
  by rewrite kpersona_copyout_table.
Qed.

Lemma pidinfo_keeps_table st idp infop :
  entries_live (table st) ->
  table (snd (kpersona_pidinfo_syscall idp infop st)) = table st.
Proof.
  intros Hlive. rewrite pidinfo_run.
  destruct (u32_at (umem st) idp) as [pid|]; [|done].
  destruct (negb (issuser st) && negb (pid =? curpid st)); [done|].
  unfold persona_proc_get, proc_get, deref, persona_put. run_m.
  destruct (proc_persona st !! pid) as [p|]; simpl; [|done].
  destruct (table st !! p) as [e|] eqn:He; simpl; [|done].
  rewrite lookup_alter_eq, He. simpl.
  rewrite kpersona_copyout_table. simpl.
  apply put_entry_get_ref_live. intros e' He'. by apply (Hlive p e').
Qed.

Lemma alloc_unprivileged st infop idp :
  issuser st = false ->
  kpersona_alloc_syscall infop idp st = (Some EPERM, st).
Proof.
  intros Hsu. unfold kpersona_alloc_syscall.
  unfold bind at 1, gets at 1. by rewrite Hsu.
Qed.

Lemma dealloc_unprivileged st idp :
  issuser st = false ->
  kpersona_dealloc_syscall idp st = (Some EPERM, st).
Proof.
  intros Hsu. unfold kpersona_dealloc_syscall.
  unfold bind at 1, gets at 1. by rewrite Hsu.
Qed.

(** X23: on a table whose entries are all live, a call leaves the table
    as it was unless it is an Allocate or a Deallocate of a privileged
    caller: an unprivileged caller cannot change the registry, and the
    other operations release what they acquire. *)
Theorem only_privileged_alloc_and_dealloc_change_the_registry pargs st :
  entries_live (table st) ->
  issuser st = false \/ changes_registry (pargs_operation pargs) = false ->
  table (snd (sys_persona pargs st)) = table st.
Proof.
  intros Hlive Hwhy. unfold sys_persona.
  destruct (pargs_operation pargs); simpl in Hwhy.
  - destruct Hwhy as [Hsu|?]; [|done]. by rewrite alloc_unprivileged.
  - destruct Hwhy as [Hsu|?]; [|done]. by rewrite dealloc_unprivileged.
  - by apply get_keeps_table.
  - apply info_keeps_table.
  - by apply pidinfo_keeps_table.
  - apply find_keeps_table.
  - done.
Qed.

Lemma kpersona_copyin_fails st infop k0 :
  (exists k w, umem st !! infop = Some (mk_ucell (UInfo k) w) /\
               persona_info_version k = PERSONA_INFO_V1)
  \/ (exists e k', kpersona_copyin infop k0 st = (Some e, k', st) /\
                   (e = EFAULT \/ e = EINVAL)).
Proof.
  unfold kpersona_copyin, copyin_u32, copyin_info, u32_at. run_m.
  destruct (umem st !! infop) as [[[k|v|n] w]|] eqn:Hm; simpl.
  1: destruct (Z.eqb_spec (persona_info_version k) PERSONA_INFO_V1);
       simpl; [by eauto|].
  2: destruct (v =? PERSONA_INFO_V1); simpl; rewrite ?Hm; simpl.
  all: right; eexists _, _; (split; [reflexivity|]); auto.
Qed.

(** An allocation leaves the table as it was or adds one valid entry. *)
Lemma alloc_table_cases st infop idp :
  let st' := snd (kpersona_alloc_syscall infop idp st) in
  table st' = table st
  \/ (exists new_id e,
        (forall p, p <> new_id -> table st' !! p = table st !! p) /\
        table st' !! new_id = Some e /\ pna_valid e = true).
Proof.
  intros st'. subst st'.
  destruct (issuser st) eqn:Hsu.
  2: { left. by rewrite alloc_unprivileged. }
  destruct (kpersona_copyin_fails st infop kinfo_uninit)
    as [(k & w & Hm & Hv)|(e & k' & Hfail & _)].
  2: { left. unfold kpersona_alloc_syscall.
       unfold bind at 1, gets at 1. rewrite Hsu. simpl.
       unfold bind at 1. by rewrite Hfail. }
  pose proof (alloc_effect st infop idp k w Hsu Hm Hv) as Heff.
  cbv zeta in Heff.
  destruct (kpersona_alloc_syscall infop idp st) as [error st']. simpl.
  destruct Heff as (login & evs & _ & Hcases).
  destruct (table st !! alloc_new_id _ _ _) as [e0|].
  { left. by destruct Hcases as (_ & ? & _). }
  destruct Hcases as [(? & _)|(Hrest & (e & He & Hv' & _) & _)]; [by left|].
  right. eauto.
Qed.

(** X24: every call of [persona] keeps the table free of dead entries: if
    every entry is valid or referenced before the call, so is every entry
    after it. *)
Theorem persona_keeps_every_entry_live pargs st :
  entries_live (table st) ->
  entries_live (table (snd (sys_persona pargs st))).
Proof.
  intros Hlive.
  destruct (changes_registry (pargs_operation pargs)) eqn:Hop.
  2: { assert (table (snd (sys_persona pargs st)) = table st) as ->; [|done].
       unfold sys_persona.
       destruct (pargs_operation pargs); try discriminate Hop.
       - by apply get_keeps_table.
       - apply info_keeps_table.
       - by apply pidinfo_keeps_table.
       - apply find_keeps_table.
       - done. }
  unfold sys_persona.
  destruct (pargs_operation pargs); try discriminate Hop.
  - destruct (alloc_table_cases st (pargs_info pargs) (pargs_id pargs))
      as [->|(new_id & e & Hrest & He & Hv)]; [done|].
    intros p e' Hp. destruct (decide (p = new_id)) as [->|Hne].
    + rewrite He in Hp. injection Hp as <-. unfold entry_live.
      by rewrite Hv.
    + rewrite Hrest in Hp by done. by apply (Hlive p e').
  - destruct (u32_at (umem st) (pargs_id pargs)) as [pid|] eqn:Hid.
    2: { by rewrite (dealloc_unreadable _ _ Hid). }
    pose proof (dealloc_run st (pargs_id pargs) pid Hid) as Hd.
    destruct (kpersona_dealloc_syscall (pargs_id pargs) st) as [error st'].
    simpl.
    destruct (issuser st); [|by destruct Hd as [_ ->]].
    destruct (persona_active pid (table st));
      [|by destruct Hd as (_ & _ & ->)].
    destruct Hd as (_ & _ & _ & Hpid & Hrest).
    intros p e' Hp. destruct (decide (p = pid)) as [->|Hne].
    + rewrite Hpid in Hp.
      destruct (table st !! pid) as [e|]; [|done]. simpl in Hp.
      unfold after_dealloc in Hp.
      destruct (Nat.leb_spec (pna_refcount e) 1); [done|].
      injection Hp as <-. unfold entry_live. simpl.
      apply Nat.ltb_lt. lia.
    + rewrite Hrest in Hp by done. by apply (Hlive p e').
Qed.

End RegistryAcrossCalls.

(** ** Error codes *)

Lemma copyout_ids_error arr idp u n : forall i st,
  let R := copyout_ids arr idp u i n None st in
  fst R = None \/ fst R = Some EFAULT.
Proof.
  induction n as [|n IH]; intros i st; simpl; [by left|].
  destruct (u <=? N.of_nat i)%N; [by left|].
  destruct (arr !! i) as [[p|]|]; [|by right..].
  rewrite bind_run, copyout_run.
  destruct (can_write _ _ _); simpl; [apply IH|by right].
Qed.

Section ErrorCodes.
Context `{PersonaConsts}.

Ltac error_leaf :=
  intros; simplify_eq; try done;
  repeat match goal with
         | Hb : negb _ = true |- _ => apply negb_true_iff in Hb
         | Hb : negb _ = false |- _ => apply negb_false_iff in Hb
         | Hb : _ && _ = true |- _ => apply andb_true_iff in Hb as [? ?]
         end;
  try done; try congruence.

Lemma alloc_errors st infop idp e :
  fst (kpersona_alloc_syscall infop idp st) = Some e ->
  may_fail_with PERSONA_OP_ALLOC e = true /\
  (e = EPERM -> issuser st = false).
Proof.
  destruct (issuser st) eqn:Hsu.
  2: { rewrite alloc_unprivileged by done. simpl. by intros [= <-]. }
  destruct (kpersona_copyin_fails st infop kinfo_uninit)
    as [(k & w & Hm & Hv)|(e0 & k' & Hfail & He0)].
  2: { unfold kpersona_alloc_syscall.
       unfold bind at 1, gets at 1. rewrite Hsu. simpl.
       unfold bind at 1. rewrite Hfail. simpl. intros [= <-].
       split; [by destruct He0 as [-> | ->]|].
       intros ->. by destruct He0. }
  unfold kpersona_alloc_syscall.
  unfold bind at 1, gets at 1. rewrite Hsu. simpl.
  unfold bind at 1. rewrite (kpersona_copyin_ok _ _ _ _ _ Hm Hv). simpl.
  unfold persona_alloc, persona_set_gid, persona_set_groups,
    alloc_out_error, persona_put, kpersona_copyout, copyin_u32, copyout.
  run_m.
  repeat split_path; intros; simplify_eq; split; error_leaf.
Qed.

Lemma dealloc_errors st idp e :
  fst (kpersona_dealloc_syscall idp st) = Some e ->
  may_fail_with PERSONA_OP_DEALLOC e = true /\
  (e = EPERM -> issuser st = false).
Proof.
  unfold kpersona_dealloc_syscall, copyin_u32,
    persona_lookup_and_invalidate, persona_put.
  run_m.
  repeat split_path; intros; simplify_eq; split; error_leaf.
Qed.

Lemma get_errors st idp e :
  fst (kpersona_get_syscall idp st) = Some e ->
  may_fail_with PERSONA_OP_GET e = true.
Proof.
  unfold kpersona_get_syscall, current_persona_get, proc_get, persona_put,
    copyout.
  run_m.
  repeat split_path; error_leaf.
Qed.

Lemma info_errors st idp infop e :
  fst (kpersona_info_syscall idp infop st) = Some e ->
  may_fail_with PERSONA_OP_INFO e = true.
Proof.
  unfold kpersona_info_syscall, kpersona_copyout, copyin_u32,
    persona_lookup, deref, persona_put, copyout.
  run_m.
  repeat split_path; error_leaf.
Qed.

Lemma pidinfo_errors st idp infop e :
  fst (kpersona_pidinfo_syscall idp infop st) = Some e ->
  may_fail_with PERSONA_OP_PIDINFO e = true /\
  (e = EPERM -> issuser st = false).
Proof.
  unfold kpersona_pidinfo_syscall, kpersona_copyout, copyin_u32,
    persona_proc_get, proc_get, deref, persona_put, copyout.
  run_m.
  repeat split_path; intros; simplify_eq; split; error_leaf.
Qed.

Ltac error_out :=
  match goal with
  | |- context [copyout ?v ?a ?s] =>
      destruct (copyout v a s) as [? ?]; simpl;
      intros; simplify_eq; split; done
  end.

Lemma find_errors st infop idp idlenp e :
  fst (kpersona_find_syscall infop idp idlenp st) = Some e ->
  may_fail_with PERSONA_OP_FIND e = true /\
  (e = ENOMEM -> malloc_ok st = false).
Proof.
  unfold kpersona_find_syscall, copyin_size, kpersona_copyin, copyin_u32,
    u32_at, copyin_info, find_out, MALLOC, call_persona_find.
  run_m.
  destruct (umem st !! idlenp) as [[[k0|v0|n] w]|] eqn:Hlen; simpl.
  1,2,4: by intros; simplify_eq.
  set (u := if (g_max_personas st <? n)%N then g_max_personas st else n).
  destruct (umem st !! infop) as [[[k|v|] w']|] eqn:Hm; simpl.
  4: { error_out. }
  3: { error_out. }
  2: { destruct (v =? PERSONA_INFO_V1); simpl; rewrite ?Hm; simpl;
         error_out. }
  destruct (Z.eqb_spec (persona_info_version k) PERSONA_INFO_V1) as [Hv|Hv];
    simpl.
  2: { error_out. }
  rewrite Hm. simpl.
  set (k1 := set_persona_name _ k).
  change (persona_id k1) with (persona_id k).
  destruct (N.ltb_spec 0 u) as [Hpos|Hpos]; simpl.
  - destruct (malloc_ok st); simpl; [|error_out].
    destruct (persona_find_run (login_of k1) (persona_id k) u st)
      as (Hpf & _ & _).
    destruct (persona_find _ _ _ st) as [[[e1 found'] total'] st1].
    simpl in Hpf. injection Hpf as -> -> ->. simpl.
    match goal with
    | |- context [copyout_ids ?arr idp u 0 ?m None st1] =>
        pose proof (copyout_ids_error arr idp u m 0 st1) as Hc;
        destruct (copyout_ids arr idp u 0 m None st1) as [a1 st2]
    end.
    simpl in Hc.
    destruct (put_all _ _ _ st2) as [[] st3].
    destruct (copyout _ _ st3) as [e4 st4]. simpl.
    intros ->. destruct Hc as [?|?]; simplify_eq. split; done.
  - assert (u = 0%N) as Hu0 by lia. rewrite Hu0. simpl.
    rewrite copyout_ids_none.
    destruct (copyout _ _ _) as [e4 st4]. by simpl.
Qed.

(** X25: a call of [persona] fails only with an error code of its
    operation ([may_fail_with]); in particular [ENOSYS] only for an unknown
    operation code and a registry error only for Allocate.  It fails with
    [EPERM] only for an unprivileged caller, and with [ENOMEM] only when
    [MALLOC] finds no memory. *)
Theorem persona_fails_only_with_the_codes_of_its_operation pargs st e :
  let R := sys_persona pargs st in
  fst R = Some e ->
  may_fail_with (pargs_operation pargs) e = true /\
  (e = EPERM -> issuser st = false) /\
  (e = ENOMEM -> malloc_ok st = false).
Proof.
  intros R. subst R. unfold sys_persona.
  destruct (pargs_operation pargs); intros Herr.
  - destruct (alloc_errors _ _ _ _ Herr) as [Hm Hp].
    split; [done|]. split; [done|]. by intros ->.
  - destruct (dealloc_errors _ _ _ Herr) as [Hm Hp].
    split; [done|]. split; [done|]. by intros ->.
  - pose proof (get_errors _ _ _ Herr) as Hm.
    split; [done|]. split; by intros ->.
  - pose proof (info_errors _ _ _ _ Herr) as Hm.
    split; [done|]. split; by intros ->.
  - destruct (pidinfo_errors _ _ _ _ Herr) as [Hm Hp].
    split; [done|]. split; [done|]. by intros ->.
  - destruct (find_errors _ _ _ _ _ Herr) as [Hm Hp].
    split; [done|]. split; [by intros ->|done].
  - simpl in Herr. injection Herr as <-. done.
Qed.

End ErrorCodes.

Section MoreOutcomes.
Context `{PersonaConsts}.



Lemma adopted_cases pid st :
  (adopted pid st = None /\
   forall p, proc_persona st !! pid = Some p -> table st !! p = None)
  \/ (exists p e, adopted pid st = Some p /\
        proc_persona st !! pid = Some p /\ table st !! p = Some e).
Proof.
  unfold adopted. destruct (proc_persona st !! pid) as [p|]; [|by left].
  destruct (table st !! p) as [e|] eqn:He; simpl.
  - right. by exists p, e.
  - left. split; [done|]. by intros ? [= <-].
Qed.

Lemma pidinfo_none_run st idp infop pid :
  u32_at (umem st) idp = Some pid ->
  issuser st = true \/ pid = curpid st ->
  adopted pid st = None ->
  kpersona_pidinfo_syscall idp infop st =
    (Some ESRCH, log (EvProcGet pid) st).
Proof.
  intros Hpid Hmay Hno. rewrite pidinfo_run, Hpid.
  assert (negb (issuser st) && negb (pid =? curpid st) = false) as ->.
  { destruct Hmay as [->| ->]; [done|]. by rewrite Z.eqb_refl, andb_false_r. }
  unfold adopted in Hno.
  unfold persona_proc_get, proc_get. run_m.
  destruct (proc_persona st !! pid) as [p|]; simpl; [|done].
  by destruct (nonnull (table st !! p)).
Qed.

(** X14: a query by owner releases every reference it takes, whatever
    its outcome, and takes at most one.  It fails with [ESRCH] exactly when
    the pid is readable, the query is allowed and the process has adopted
    no persona, and then writes nothing; it never writes outside the record
    at [infop]. *)
Theorem pidinfo_releases_the_reference_it_takes st idp infop :
  let R := kpersona_pidinfo_syscall idp infop st in
  let evs := new_events st (snd R) in
  released evs = acquired evs /\
  (length (acquired evs) <= 1)%nat /\
  (fst R = Some ESRCH <->
     exists pid, u32_at (umem st) idp = Some pid /\
       (issuser st = true \/ pid = curpid st) /\ adopted pid st = None) /\
  (fst R = Some ESRCH -> umem (snd R) = umem st) /\
  (forall a, a <> infop -> umem (snd R) !! a = umem st !! a).
Proof.
  intros R evs. subst R evs.
  assert (forall a, a <> infop ->
            umem (snd (kpersona_pidinfo_syscall idp infop st)) !! a
            = umem st !! a) as Hframe
    by (intros a Ha; by apply pidinfo_elsewhere).
  revert Hframe.
  destruct (u32_at (umem st) idp) as [pid|] eqn:Hpid.
  2: { rewrite pidinfo_run, Hpid, new_events_same. simpl.
       repeat split; try done; try lia. by intros (? & ? & _). }
  destruct (decide (issuser st = true \/ pid = curpid st)) as [Hmay|Hno].
  2: { rewrite pidinfo_run, Hpid.
       assert (negb (issuser st) && negb (pid =? curpid st) = true) as ->.
       { destruct (issuser st); [tauto|]. simpl.
         destruct (Z.eqb_spec pid (curpid st)); [tauto|done]. }
       rewrite new_events_same. simpl.
       repeat split; try done; try lia.
       intros (pid' & [= <-] & ? & _). tauto. }
  destruct (adopted_cases pid st) as [[Hnone _]|(p & e & Had & Hp & He)].
  { rewrite (pidinfo_none_run _ _ _ _ Hpid Hmay Hnone). simpl. events.
    repeat split; try done; try lia. intros _. by exists pid. }
  rewrite (pidinfo_found_run _ _ _ _ _ _ Hpid Hmay Hp He).
  rewrite kpersona_copyout_run. simpl.
  assert (forall P : Prop,
            (exists pid0, Some pid = Some pid0 /\
               (issuser st = true \/ pid0 = curpid st) /\
               adopted pid0 st = None) -> P) as Hnot.
  { intros P (pid0 & [= <-] & _ & Hnone). congruence. }
  destruct (u32_at (umem st) infop) as [v|]; simpl.
  2: { events. repeat split; try done; try lia. apply Hnot. }
  destruct (v =? PERSONA_INFO_V1); simpl.
  2: { events. repeat split; try done; try lia. apply Hnot. }
  rewrite copyout_run. simpl.
  destruct (can_write (umem st) infop _); simpl; events;
    repeat split; try done; try lia; apply Hnot.
Qed.

End MoreOutcomes.

(** *** The theorems at concrete calls *)

Lemma copied_out_record_reads_back_only_with_the_supported_version_witness :
  let st := alloc_machine true (info_v1 0 0 0 0 svc) in
  let R := kpersona_copyout info_v2 100 st in
  fst R = None /\
  kpersona_copyin 100 kinfo_uninit (snd R) =
    (Some EINVAL, kinfo_uninit, snd R).
Proof.
  split; [reflexivity|].
  exact (copied_out_record_reads_back_only_with_the_supported_version
           (H := xnu_consts) (alloc_machine true (info_v1 0 0 0 0 svc))
           info_v2 100 kinfo_uninit eq_refl).
Defined.

Lemma unchecked_operations_ignore_privilege_witness :
  let st := id_machine false 0 in
  let pargs := mk_pargs PERSONA_OP_GET 100 200 300 in
  checks_privilege (pargs_operation pargs) = false /\
  sys_persona pargs (set_issuser true st) =
    (fst (sys_persona pargs st), set_issuser true (snd (sys_persona pargs st))).
Proof.
  split; [reflexivity|].
  exact (unchecked_operations_ignore_privilege (H := xnu_consts)
           (mk_pargs PERSONA_OP_GET 100 200 300) true (id_machine false 0)
           eq_refl).
Defined.

Lemma pidinfo_of_own_pid_ignores_privilege_witness :
  let st := id_machine false 1 in
  let R := kpersona_pidinfo_syscall 200 100 st in
  u32_at (umem st) 200 = Some (curpid st) /\
  kpersona_pidinfo_syscall 200 100 (set_issuser true st) =
    (fst R, set_issuser true (snd R)).
Proof.
  split; [reflexivity|].
  exact (pidinfo_of_own_pid_ignores_privilege (H := xnu_consts)
           (id_machine false 1) 200 100 true eq_refl).
Defined.

Lemma info_reports_a_snapshot_of_the_entry_witness :
  let st := id_machine false 1002 in
  let R := kpersona_info_syscall 200 100 st in
  u32_at (umem st) 200 = Some 1002 /\
  table st !! 1002 = Some (entry svc) /\
  umem st !! 100 = Some (cell (UInfo (info_v1 0 0 0 0 []))) /\
  fst R = None /\
  umem (snd R) =
    <[100 := cell (UInfo (kinfo_snapshot 1002 (entry svc)))]> (umem st) /\
  table (snd R) = table st.
Proof.
  split; [reflexivity|]. split; [reflexivity|]. split; [reflexivity|].
  destruct (info_reports_a_snapshot_of_the_entry (H := xnu_consts)
              (id_machine false 1002) 200 100 1002 (entry svc)
              (info_v1 0 0 0 0 []) eq_refl eq_refl eq_refl eq_refl eq_refl)
    as (Herr & Hmem & Htbl & _).
  split; [exact Herr|]. split; [exact Hmem|exact Htbl].
Defined.

Lemma info_record_is_accepted_unchanged_by_copyin_witness :
  let st := id_machine false 1002 in
  let R := kpersona_info_syscall 200 100 st in
  fst R = None /\
  exists id e,
    u32_at (umem st) 200 = Some id /\ table st !! id = Some e /\
    kpersona_copyin 100 kinfo_uninit (snd R) =
      (None, kinfo_snapshot id e, snd R).
Proof.
  split; [reflexivity|].
  exact (info_record_is_accepted_unchanged_by_copyin (H := xnu_consts)
           (id_machine false 1002) 200 100 kinfo_uninit eq_refl).
Defined.

Lemma pidinfo_reports_the_persona_of_the_process_witness :
  let st := id_machine false 1 in
  let R := kpersona_pidinfo_syscall 200 100 st in
  u32_at (umem st) 200 = Some 1 /\
  1 = curpid st /\
  proc_persona st !! 1 = Some 1000 /\
  table st !! 1000 = Some (entry alice) /\
  fst R = None /\
  umem (snd R) =
    <[100 := cell (UInfo (kinfo_snapshot 1000 (entry alice)))]> (umem st).
Proof.
  split; [reflexivity|]. split; [reflexivity|]. split; [reflexivity|].
  split; [reflexivity|].
  destruct (pidinfo_reports_the_persona_of_the_process (H := xnu_consts)
              (id_machine false 1) 200 100 1 1000 (entry alice)
              (info_v1 0 0 0 0 []) eq_refl (or_intror eq_refl) eq_refl
              eq_refl eq_refl eq_refl eq_refl)
    as (Herr & Hmem & _).
  split; [exact Herr|exact Hmem].
Defined.

Lemma persona_writes_only_to_its_buffers_witness :
  let st := find_machine 3 [200; 204; 208] in
  let pargs := mk_pargs PERSONA_OP_FIND 100 200 300 in
  ~ may_write pargs 100 /\
  umem (snd (sys_persona pargs st)) !! 100 = umem st !! 100.
Proof.
  assert (~ may_write (mk_pargs PERSONA_OP_FIND 100 200 300) 100) as Hno.
  { unfold may_write. simpl. intros [Heq|[i Heq]]; lia. }
  split; [exact Hno|].
  exact (persona_writes_only_to_its_buffers (H := xnu_consts)
           (mk_pargs PERSONA_OP_FIND 100 200 300)
           (find_machine 3 [200; 204; 208]) 100 Hno).
Defined.



Lemma dealloc_succeeds_only_once_witness :
  let st := id_machine true 1000 in
  let R1 := kpersona_dealloc_syscall 200 st in
  let R2 := kpersona_dealloc_syscall 200 (snd R1) in
  fst R1 = None /\ fst R2 = Some ESRCH /\ table (snd R2) = table (snd R1).
Proof.
  split; [reflexivity|].
  destruct (dealloc_succeeds_only_once (id_machine true 1000) 200 eq_refl)
    as (Herr & Htbl & _).
  split; [exact Herr|exact Htbl].
Defined.


Lemma find_stores_the_ids_in_consecutive_slots_witness :
  let st := find_machine 3 [200; 204; 208] in
  let R := kpersona_find_syscall 100 200 300 st in
  umem st !! 300 = Some (cell (USize 3)) /\
  umem st !! 100 = Some (cell (UInfo (info_v1 4294967295 0 0 0 []))) /\
  malloc_ok st = true /\
  fst R = None /\
  umem (snd R) !! 200 = Some (cell (U32 1001)) /\
  umem (snd R) !! 204 = Some (cell (U32 1002)) /\
  umem (snd R) !! 208 = Some (cell (U32 1000)) /\
  umem (snd R) !! 300 = Some (cell (USize 3)).
Proof.
  split; [reflexivity|]. split; [reflexivity|]. split; [reflexivity|].
  destruct (find_stores_the_ids_in_consecutive_slots (H := xnu_consts)
              (find_machine 3 [200; 204; 208]) 100 200 300 3 true
              (info_v1 4294967295 0 0 0 []) true
              eq_refl eq_refl eq_refl (or_intror eq_refl))
    as (Herr & Hslots & Hlen & _).
  { intros j Hj. vm_compute in Hj.
    destruct j as [|[|[|j]]]; [reflexivity..|lia]. }
  split; [exact Herr|].
  split; [exact (Hslots 0%nat 1001 eq_refl)|].
  split; [exact (Hslots 1%nat 1002 eq_refl)|].
  split; [exact (Hslots 2%nat 1000 eq_refl)|exact Hlen].
Defined.

Lemma find_writes_no_slot_beyond_the_limit_witness :
  let st := find_machine 1 [200; 204] in
  let R := kpersona_find_syscall 100 200 300 st in
  umem st !! 300 = Some (cell (USize 1)) /\
  umem (snd R) !! 204 = umem st !! 204.
Proof.
  split; [reflexivity|].
  apply (find_writes_no_slot_beyond_the_limit (H := xnu_consts)
           (find_machine 1 [200; 204]) 100 200 300 1 true 204 eq_refl).
  - lia.
  - intros j Hj. simpl in Hj. lia.
Defined.

Lemma find_failure_before_the_search_zeroes_the_count_witness :
  let st := without_memory (find_machine 3 [200]) in
  let R := kpersona_find_syscall 100 200 300 st in
  umem st !! 300 = Some (cell (USize 3)) /\
  (0 < N.min 3 (g_max_personas st))%N /\ malloc_ok st = false /\
  fst R = Some ENOMEM /\
  umem (snd R) = <[300 := cell (USize 0)]> (umem st) /\
  table (snd R) = table st.
Proof.
  assert ((0 < N.min 3 (g_max_personas
             (without_memory (find_machine 3 [200%Z]))))%N) as Hpos
    by reflexivity.
  split; [reflexivity|]. split; [exact Hpos|]. split; [reflexivity|].
  destruct (find_failure_before_the_search_zeroes_the_count
              (H := xnu_consts) (without_memory (find_machine 3 [200]))
              100 200 300 3 true eq_refl
              (or_intror (conj Hpos eq_refl)))
    as (_ & Hmem & Htbl & _ & Hiff).
  split; [|split; [exact Hmem|exact Htbl]].
  apply Hiff. exists (info_v1 4294967295 0 0 0 []), true.
  split; reflexivity.
Defined.

Lemma find_with_limit_zero_only_counts_witness :
  let st := without_memory (find_machine 0 []) in
  let R := kpersona_find_syscall 100 200 300 st in
  umem st !! 300 = Some (cell (USize 0)) /\
  umem st !! 100 = Some (cell (UInfo (info_v1 4294967295 0 0 0 []))) /\
  fst R = None /\
  umem (snd R) = <[300 := cell (USize 3)]> (umem st).
Proof.
  split; [reflexivity|]. split; [reflexivity|].
  destruct (find_with_limit_zero_only_counts (H := xnu_consts)
              (without_memory (find_machine 0 [])) 100 200 300 0 true
              (info_v1 4294967295 0 0 0 []) true
              eq_refl eq_refl eq_refl eq_refl)
    as (Herr & _ & Hmem & _).
  split; [exact Herr|exact Hmem].
Defined.

Lemma only_privileged_alloc_and_dealloc_change_the_registry_witness :
  let st := id_machine false 1000 in
  let pargs := mk_pargs PERSONA_OP_DEALLOC 100 200 300 in
  entries_live (table st) /\ issuser st = false /\
  table (snd (sys_persona pargs st)) = table st.
Proof.
  assert (entries_live (table (id_machine false 1000))) as Hlive.
  { unfold entries_live, id_machine, three_personas. simpl.
    repeat (apply map_Forall_insert_2; [reflexivity|]).
    apply map_Forall_empty. }
  split; [exact Hlive|]. split; [reflexivity|].
  exact (only_privileged_alloc_and_dealloc_change_the_registry
           (H := xnu_consts) (mk_pargs PERSONA_OP_DEALLOC 100 200 300)
           (id_machine false 1000) Hlive (or_introl eq_refl)).
Defined.

Lemma persona_keeps_every_entry_live_witness :
  let st := id_machine true 1000 in
  let pargs := mk_pargs PERSONA_OP_DEALLOC 100 200 300 in
  entries_live (table st) /\
  entries_live (table (snd (sys_persona pargs st))).
Proof.
  assert (entries_live (table (id_machine true 1000))) as Hlive.
  { unfold entries_live, id_machine, three_personas. simpl.
    repeat (apply map_Forall_insert_2; [reflexivity|]).
    apply map_Forall_empty. }
  split; [exact Hlive|].
  exact (persona_keeps_every_entry_live (H := xnu_consts)
           (mk_pargs PERSONA_OP_DEALLOC 100 200 300)
           (id_machine true 1000) Hlive).
Defined.

Lemma persona_fails_only_with_the_codes_of_its_operation_witness :
  let st := without_memory (find_machine 3 [200]) in
  let pargs := mk_pargs PERSONA_OP_FIND 100 200 300 in
  fst (sys_persona pargs st) = Some ENOMEM /\
  may_fail_with (pargs_operation pargs) ENOMEM = true /\
  malloc_ok st = false.
Proof.
  split; [reflexivity|].
  destruct (persona_fails_only_with_the_codes_of_its_operation
              (H := xnu_consts) (mk_pargs PERSONA_OP_FIND 100 200 300)
              (without_memory (find_machine 3 [200])) ENOMEM eq_refl)
    as (Hmay & _ & Hmem).
  split; [exact Hmay|exact (Hmem eq_refl)].
Defined.

